(** * reftool: embedding typed references in ELF objects

    A shallow embedding of [reftool.c].  The program keeps small
    (media type, data) records in sections named [.reference] of an ELF
    object.  [add] builds a note record, finds or creates the section name in
    the section-name string table, places a new section after every existing
    one and moves the section header table behind it; [list] prints every
    record it finds.

    Memory is modelled as byte lists, machine integers as [Z] with their
    wrap-around written out, and the libelf descriptor as a record holding
    the section table.  Calls that end the process ([err], [errx]) and
    accesses outside an allocated buffer are outcomes of their own. *)

From Stdlib Require Import ZArith Lia Bool.
From Stdlib Require Import Strings.Byte.
From stdpp Require Import base list strings countable gmap.

Local Open Scope Z_scope.

(** ** Outcomes *)

(** A call either returns, ends the process with a diagnostic ([err] and
    [errx] exit with [EXIT_FAILURE]), or touches memory outside a buffer. *)
Inductive result (A : Type) : Type :=
| Ok (a : A)
| Fatal (msg : string)
| Undefined.
Arguments Ok {A} a.
Arguments Fatal {A} msg.
Arguments Undefined {A}.

Definition bind {A B : Type} (r : result A) (k : A -> result B) : result B :=
  match r with
  | Ok a => k a
  | Fatal msg => Fatal msg
  | Undefined => Undefined
  end.

Notation "x <- r ;; k" := (bind r (fun x => k))
  (at level 100, r at next level, k at level 200, right associativity).

(** A null pointer returned by the library, followed by [errx]. *)
Definition or_fatal {A : Type} (o : option A) (msg : string) : result A :=
  match o with
  | Some a => Ok a
  | None => Fatal msg
  end.

(** A memory access that is only defined inside the buffer. *)
Definition in_bounds {A : Type} (o : option A) : result A :=
  match o with
  | Some a => Ok a
  | None => Undefined
  end.

(** ** Machine integers *)

(** [GElf_Word] is 32 bits wide; [GElf_Off], [GElf_Xword] and [size_t] are
    64 bits wide. *)
Definition word32 (z : Z) : Z := z mod 2 ^ 32.
Definition word64 (z : Z) : Z := z mod 2 ^ 64.

(** ** Bytes and buffers *)

Definition Z_of_byte (b : byte) : Z := Z.of_N (Byte.to_N b).

Definition byte_of_Z (z : Z) : byte :=
  match Byte.of_N (Z.to_N (z mod 256)) with
  | Some b => b
  | None => x00
  end.

(** A [GElf_Word] in memory, in the byte order of the (little-endian) host. *)
Definition bytes_of_word (w : Z) : list byte :=
  [byte_of_Z w; byte_of_Z (w / 2 ^ 8);
   byte_of_Z (w / 2 ^ 16); byte_of_Z (w / 2 ^ 24)].

Definition word_of_bytes (bs : list byte) : Z :=
  foldr (fun b acc => Z_of_byte b + 2 ^ 8 * acc) 0 bs.

(** The buffer [calloc(1, n)] returns when the request is granted;
    [calloc_or_null] below has the null result as well. *)
Definition calloc (n : Z) : list byte := replicate (Z.to_nat n) x00.

(** Reading [n] bytes at [off]. *)
Definition load (buf : list byte) (off n : Z) : option (list byte) :=
  if (0 <=? off) && (0 <=? n) && (off + n <=? Z.of_nat (length buf))
  then Some (take (Z.to_nat n) (drop (Z.to_nat off) buf))
  else None.

(** Writing the bytes [bs] at [off]. *)
Definition store (buf : list byte) (off : Z) (bs : list byte) : option (list byte) :=
  if (0 <=? off) && (off + Z.of_nat (length bs) <=? Z.of_nat (length buf))
  then Some (take (Z.to_nat off) buf ++ bs
               ++ drop (Z.to_nat off + length bs) buf)
  else None.

(** [memcpy(dst + off, src, n)] *)
Definition memcpy (dst : list byte) (off : Z) (src : list byte) (n : Z)
  : option (list byte) :=
  match load src 0 n with
  | Some bs => store dst off bs
  | None => None
  end.

Definition load_word (buf : list byte) (off : Z) : option Z :=
  option_map word_of_bytes (load buf off 4).

Definition store_word (buf : list byte) (off : Z) (w : Z) : option (list byte) :=
  store buf off (bytes_of_word w).

(** ** C strings *)

(** [strlen]: the bytes before the first NUL.  An argument string is given by
    its characters; its terminator follows the last one. *)
Fixpoint strlen (s : list byte) : nat :=
  match s with
  | [] => O
  | c :: s' => if Byte.eqb c x00 then O else S (strlen s')
  end.

(** The string a [char *] into [mem] points to: the bytes up to the first
    NUL.  Without a NUL the read runs off the buffer. *)
Fixpoint cstr (mem : list byte) : option (list byte) :=
  match mem with
  | [] => None
  | c :: mem' =>
      if Byte.eqb c x00 then Some []
      else option_map (cons c) (cstr mem')
  end.

Definition cstr_at (buf : list byte) (off : Z) : option (list byte) :=
  if (0 <=? off) && (off <=? Z.of_nat (length buf))
  then cstr (drop (Z.to_nat off) buf)
  else None.

(** [strcmp] on two strings given by their characters. *)
Fixpoint strcmp (a b : list byte) : Z :=
  match a, b with
  | [], [] => 0
  | [], d :: _ => - Z_of_byte d
  | c :: _, [] => Z_of_byte c
  | c :: a', d :: b' =>
      if Byte.eqb c d then strcmp a' b' else Z_of_byte c - Z_of_byte d
  end.

(** ** The note record *)

(** [struct note { GElf_Word namesz, descsz, type; char buf[]; }] *)
Definition sizeof_note : Z := 12.
Definition off_namesz : Z := 0.
Definition off_descsz : Z := 4.
Definition off_type : Z := 8.
Definition off_buf : Z := 12.

Definition REFERENCE_SECTION_NAME : list byte :=
  Eval cbv in String.list_byte_of_string ".reference".

(** [len += (4 - (len & 3)) & 3] on a [GElf_Word] *)
Definition pad4 (len : Z) : Z :=
  word32 (len + Z.land (word32 (4 - Z.land len 3)) 3).

(** The record [add] builds from its two arguments (lines 260-278): the
    buffer and [bufsize]. *)
Definition add_note (mediatype data : list byte) : result (list byte * Z) :=
  let mtlen := word32 (Z.of_nat (strlen mediatype)) in
  let dlen := word32 (Z.of_nat (strlen data)) in
  let mtlen := pad4 mtlen in
  let dlen := pad4 dlen in
  let bufsize := word64 (sizeof_note + mtlen + dlen) in
  let buf := calloc bufsize in
  buf <- in_bounds (store_word buf off_namesz mtlen) ;;
  buf <- in_bounds (store_word buf off_descsz dlen) ;;
  namesz <- in_bounds (load_word buf off_namesz) ;;
  buf <- in_bounds (memcpy buf (off_buf + namesz) data (Z.of_nat (strlen data))) ;;
  buf <- in_bounds (memcpy buf off_buf mediatype (Z.of_nat (strlen mediatype))) ;;
  Ok (buf, bufsize).

(** The two strings [read_section] prints for a record at [n]:
    [n->buf] and [n->buf + n->namesz]. *)
Definition note_name (n : list byte) : result (list byte) :=
  in_bounds (cstr_at n off_buf).

Definition note_desc (n : list byte) : result (list byte) :=
  namesz <- in_bounds (load_word n off_namesz) ;;
  in_bounds (cstr_at n (off_buf + namesz)).

(** ** The libelf descriptor

    libelf is used through its documented interface.  The descriptor is a
    record: the kind of file, the ELF header, and the section table with
    entry 0 (the reserved null entry) first.  Handles ([Elf_Scn *],
    [Elf_Data *]) are positions in the table.  The model is that of a
    64-bit object, where the [GElf_*] types are the file's own. *)

Definition SHT_NULL : Z := 0.
Definition SHT_STRTAB : Z := 3.
Definition SHT_NOTE : Z := 7.
Definition SHT_NOBITS : Z := 8.
Definition SHF_ALLOC : Z := 2.
Definition ELF_T_BYTE : Z := 0.
Definition EV_CURRENT : Z := 1.
Definition ELF_F_DIRTY : Z := 1.
Definition ELF_F_LAYOUT : Z := 4.
Definition EXIT_SUCCESS : Z := 0.

Record GElf_Shdr : Type := mkShdr {
  sh_name : Z;
  sh_type : Z;
  sh_flags : Z;
  sh_addr : Z;
  sh_offset : Z;
  sh_size : Z;
  sh_link : Z;
  sh_info : Z;
  sh_addralign : Z;
  sh_entsize : Z
}.

Record Elf_Data : Type := mkData {
  d_buf : option (list byte);
  d_type : Z;
  d_version : Z;
  d_size : Z;
  d_off : Z;
  d_align : Z;
  d_flags : Z
}.

Record Elf_Scn : Type := mkScn {
  scn_shdr : GElf_Shdr;
  shdr_flags : Z;
  scn_data : list Elf_Data;
  scn_flags : Z
}.

(** The two fields of the ELF header the program reads or writes. *)
Record GElf_Ehdr : Type := mkEhdr {
  e_shoff : Z;
  e_shstrndx : Z
}.

Inductive Elf_Kind : Type := ELF_K_NONE | ELF_K_AR | ELF_K_COFF | ELF_K_ELF.

Record Elf : Type := mkElf {
  elf_kind : Elf_Kind;
  elf_ehdr : GElf_Ehdr;
  ehdr_flags : Z;
  elf_scns : list Elf_Scn;
  elf_flags : Z
}.

Definition is_elf (elf : Elf) : bool :=
  match elf_kind elf with
  | ELF_K_ELF => true
  | _ => false
  end.

Definition with_scns (elf : Elf) (scns : list Elf_Scn) : Elf :=
  {| elf_kind := elf_kind elf; elf_ehdr := elf_ehdr elf;
     ehdr_flags := ehdr_flags elf; elf_scns := scns;
     elf_flags := elf_flags elf |}.

(** [elf_flagelf(elf, ELF_C_SET, flags)] *)
Definition elf_flagelf (elf : Elf) (flags : Z) : Elf :=
  {| elf_kind := elf_kind elf; elf_ehdr := elf_ehdr elf;
     ehdr_flags := ehdr_flags elf; elf_scns := elf_scns elf;
     elf_flags := Z.lor (elf_flags elf) flags |}.

(** [gelf_getehdr]: null unless the descriptor is an ELF object. *)
Definition gelf_getehdr (elf : Elf) : option GElf_Ehdr :=
  if is_elf elf then Some (elf_ehdr elf) else None.

Definition gelf_update_ehdr (elf : Elf) (ehdr : GElf_Ehdr) : option Elf :=
  if is_elf elf
  then Some {| elf_kind := elf_kind elf; elf_ehdr := ehdr;
               ehdr_flags := Z.lor (ehdr_flags elf) ELF_F_DIRTY;
               elf_scns := elf_scns elf; elf_flags := elf_flags elf |}
  else None.

(** The sections [elf_nextscn] yields from a null cursor until it returns
    null: the table from entry 1 on. *)
Definition sections (elf : Elf) : list Elf_Scn :=
  if is_elf elf then tail (elf_scns elf) else [].

(** [elf_getscn(elf, idx)] *)
Definition elf_getscn (elf : Elf) (idx : Z) : option nat :=
  if is_elf elf && (0 <=? idx) && (idx <? Z.of_nat (length (elf_scns elf)))
  then Some (Z.to_nat idx)
  else None.

(** The section behind a handle. *)
Definition scn_at (elf : Elf) (scn : nat) : option Elf_Scn :=
  elf_scns elf !! scn.

(** [gelf_getshdr] on a section of the table: there it does not return
    null, and the [errx] behind the program's null checks is not reached. *)
Definition gelf_getshdr (scn : Elf_Scn) : GElf_Shdr := scn_shdr scn.

(** [gelf_update_shdr(scn, shdr)] *)
Definition gelf_update_shdr (elf : Elf) (scn : nat) (shdr : GElf_Shdr)
  : option Elf :=
  match scn_at elf scn with
  | Some s =>
      Some (with_scns elf
              (<[scn := {| scn_shdr := shdr;
                           shdr_flags := Z.lor (shdr_flags s) ELF_F_DIRTY;
                           scn_data := scn_data s;
                           scn_flags := scn_flags s |}]> (elf_scns elf)))
  | None => None
  end.

(** [elf_flagscn(scn, ELF_C_SET, flags)] *)
Definition elf_flagscn (elf : Elf) (scn : nat) (flags : Z) : Elf :=
  with_scns elf
    (alter (fun s => {| scn_shdr := scn_shdr s; shdr_flags := shdr_flags s;
                        scn_data := scn_data s;
                        scn_flags := Z.lor (scn_flags s) flags |})
       scn (elf_scns elf)).

(** [elf_getdata(scn, NULL)]: the first data descriptor of a section. *)
Definition elf_getdata (scn : Elf_Scn) : option Elf_Data := head (scn_data scn).

(** Writing through an [Elf_Data *]: block [i] of section [scn]. *)
Definition set_data (elf : Elf) (scn i : nat) (data : Elf_Data) : Elf :=
  with_scns elf
    (alter (fun s => {| scn_shdr := scn_shdr s; shdr_flags := shdr_flags s;
                        scn_data := <[i := data]> (scn_data s);
                        scn_flags := scn_flags s |})
       scn (elf_scns elf)).

Definition new_scn : Elf_Scn :=
  {| scn_shdr := mkShdr 0 0 0 0 0 0 0 0 0 0;
     shdr_flags := ELF_F_DIRTY;
     scn_data := [];
     scn_flags := ELF_F_DIRTY |}.

(** The table with its entry 0: [elf_newscn] creates that entry first when
    the table is empty. *)
Definition table0 (elf : Elf) : list Elf_Scn :=
  match elf_scns elf with
  | [] => [new_scn]
  | _ => elf_scns elf
  end.

(** [elf_newscn]: a zeroed section at the end of the table. *)
Definition elf_newscn (elf : Elf) : option (nat * Elf) :=
  if is_elf elf then
    let scns := table0 elf in
    Some (length scns, with_scns elf (scns ++ [new_scn]))
  else None.

Definition new_data : Elf_Data :=
  {| d_buf := None; d_type := ELF_T_BYTE; d_version := EV_CURRENT;
     d_size := 0; d_off := 0; d_align := 0; d_flags := ELF_F_DIRTY |}.

(** [elf_newdata(scn)]: a fresh descriptor at the end of the section's
    data list; returns its position. *)
Definition elf_newdata (elf : Elf) (scn : nat) : option (nat * Elf) :=
  match scn_at elf scn with
  | Some s =>
      Some (length (scn_data s),
            with_scns elf
              (<[scn := {| scn_shdr := scn_shdr s; shdr_flags := shdr_flags s;
                           scn_data := scn_data s ++ [new_data];
                           scn_flags := scn_flags s |}]> (elf_scns elf)))
  | None => None
  end.

(** [elf_strptr(elf, idx, offset)]: the string at [offset] of string table
    [idx].  Null when [idx] is no string table, when [offset] is outside its
    declared size, or when no NUL ends the string inside the data. *)
Definition elf_strptr (elf : Elf) (idx offset : Z) : option (list byte) :=
  scn ← elf_getscn elf idx;
  strscn ← scn_at elf scn;
  if negb (sh_type (scn_shdr strscn) =? SHT_STRTAB) then None
  else if sh_size (scn_shdr strscn) <=? offset then None
  else
    dl ← find (fun d => (d_off d <=? offset) && (offset <? d_off d + d_size d))
              (scn_data strscn);
    buf ← d_buf dl;
    cstr_at (take (Z.to_nat (d_size dl)) buf) (offset - d_off dl).

(** [elf_update] under [ELF_F_LAYOUT]: the library serialises the descriptor
    as it stands; every offset and size is the caller's. *)
Definition elf_update (elf : Elf) : option Elf := Some elf.

(** ** The reader *)

(** Standard output: the bytes written so far. *)
Definition stdout : Type := list byte.

(** [printf("%s (%s)\n", desc, name)] *)
Definition printf_ref (desc name : list byte) : list byte :=
  desc ++ [x20; x28] ++ name ++ [x29; x0a].

(** The loop over the data descriptors of a section (lines 117-126). *)
Fixpoint read_section_data (blocks : list Elf_Data) (out : stdout)
  : result stdout :=
  match blocks with
  | [] => Ok out
  | data :: blocks' =>
      match d_buf data with
      | Some n =>
          desc <- note_desc n ;;
          name <- note_name n ;;
          read_section_data blocks' (out ++ printf_ref desc name)
      | None => read_section_data blocks' out
      end
  end.

Definition read_section (elf : Elf) (cursor : Elf_Scn) (out : stdout)
  : result (bool * stdout) :=
  match gelf_getehdr elf with
  | None => Ok (false, out)
  | Some ehdr =>
      let shdr := gelf_getshdr cursor in
      match elf_strptr elf (e_shstrndx ehdr) (sh_name shdr) with
      | None => Ok (false, out)
      | Some name =>
          if negb (strcmp name REFERENCE_SECTION_NAME =? 0)
          then Ok (true, out)
          else
            out <- read_section_data (scn_data cursor) out ;;
            Ok (true, out)
      end
  end.

(** The loop of [list] (lines 156-162). *)
Fixpoint list_sections (elf : Elf) (cursors : list Elf_Scn) (out : stdout)
  : result stdout :=
  match cursors with
  | [] => Ok out
  | cursor :: cursors' =>
      r <- read_section elf cursor out ;;
      if fst r then list_sections elf cursors' (snd r)
      else Fatal "reading section"
  end.

(** ** The writer *)

(** The search for a section already named [.reference] (lines 185-207):
    its [sh_name] when there is one. *)
Fixpoint find_strtab_ref (elf : Elf) (ehdr : GElf_Ehdr)
    (cursors : list Elf_Scn) : result (option Z) :=
  match cursors with
  | [] => Ok None
  | cursor :: cursors' =>
      let shdr := gelf_getshdr cursor in
      name <- or_fatal (elf_strptr elf (e_shstrndx ehdr) (sh_name shdr))
                       "reading section name" ;;
      if strcmp name REFERENCE_SECTION_NAME =? 0
      then Ok (Some (sh_name shdr))
      else find_strtab_ref elf ehdr cursors'
  end.

(** Extending the string table (lines 209-252). *)
Definition add_strtab_ref (elf : Elf) (ehdr : GElf_Ehdr) : result (Z * Elf) :=
  scn <- or_fatal (elf_getscn elf (e_shstrndx ehdr)) "reading string table" ;;
  s <- or_fatal (scn_at elf scn) "reading string table" ;;
  str_data <- or_fatal (elf_getdata s)
                       "getting data descriptor for string table" ;;
  let offset := word32 (d_size str_data) in
  let len := Z.of_nat (strlen REFERENCE_SECTION_NAME) in
  let new_size := word64 (offset + len + 1) in
  let new_table := calloc new_size in
  new_table <- in_bounds (memcpy new_table 0 (default [] (d_buf str_data))
                                 (d_size str_data)) ;;
  new_table <- in_bounds (memcpy new_table offset
                                 (REFERENCE_SECTION_NAME ++ [x00])
                                 (len + 1)) ;;
  let str_data :=
    {| d_buf := Some new_table; d_type := d_type str_data;
       d_version := d_version str_data; d_size := new_size;
       d_off := d_off str_data; d_align := d_align str_data;
       d_flags := Z.lor (d_flags str_data) ELF_F_DIRTY |} in
  let elf := set_data elf scn 0 str_data in
  s <- or_fatal (scn_at elf scn) "reading section header" ;;
  let shdr := gelf_getshdr s in
  let shdr :=
    {| sh_name := sh_name shdr; sh_type := sh_type shdr;
       sh_flags := sh_flags shdr; sh_addr := sh_addr shdr;
       sh_offset := sh_offset shdr; sh_size := d_size str_data;
       sh_link := sh_link shdr; sh_info := sh_info shdr;
       sh_addralign := sh_addralign shdr; sh_entsize := sh_entsize shdr |} in
  elf <- or_fatal (gelf_update_shdr elf scn shdr) "updating section header" ;;
  Ok (offset, elf).

Definition find_or_add_strtab_ref (elf : Elf) : result (Z * Elf) :=
  ehdr <- or_fatal (gelf_getehdr elf) "reading program header" ;;
  found <- find_strtab_ref elf ehdr (sections elf) ;;
  match found with
  | Some sh_name => Ok (sh_name, elf)
  | None => add_strtab_ref elf ehdr
  end.

(** The scan for the end of the occupied bytes (lines 292-309): the body
    of the loop, and the loop from [last_offset = 0]. *)
Definition last_offset_step (last_offset : Z) (cursor : Elf_Scn) : Z :=
  let shdr := gelf_getshdr cursor in
  if negb (sh_type shdr =? SHT_NOBITS)
     && (last_offset <? word64 (sh_offset shdr + sh_size shdr))
  then word64 (sh_offset shdr + sh_size shdr)
  else last_offset.

Definition add_last_offset (cursors : list Elf_Scn) : Z :=
  fold_left last_offset_step cursors 0.

(** The new section (lines 311-350). *)
Definition add_ref_scn (elf : Elf) (buf : list byte) (bufsize : Z)
    (sh_name last_offset : Z) : result Elf :=
  r <- or_fatal (elf_newscn elf) "elf_newscn()" ;;
  let ref_scn := fst r in
  let elf := elf_flagscn (snd r) ref_scn ELF_F_DIRTY in
  r <- or_fatal (elf_newdata elf ref_scn) "elf_newdata()" ;;
  let elf := snd r in
  let ref_data :=
    {| d_buf := Some buf; d_type := ELF_T_BYTE; d_version := EV_CURRENT;
       d_size := bufsize; d_off := 0; d_align := d_align new_data;
       d_flags := Z.lor (d_flags new_data) ELF_F_DIRTY |} in
  let elf := set_data elf ref_scn (fst r) ref_data in
  s <- or_fatal (scn_at elf ref_scn) "gelf_getshdr" ;;
  let ref_shdr := gelf_getshdr s in
  let ref_shdr :=
    {| sh_name := sh_name; sh_type := SHT_NOTE; sh_flags := SHF_ALLOC;
       sh_addr := sh_addr ref_shdr; sh_offset := last_offset;
       sh_size := bufsize; sh_link := sh_link ref_shdr;
       sh_info := sh_info ref_shdr; sh_addralign := 1; sh_entsize := 0 |} in
  or_fatal (gelf_update_shdr elf ref_scn ref_shdr) "gelf_update_shdr".

Module Cmd.

(** [add], on the descriptor [elf_open] returned for the file. *)
Definition add (elf : Elf) (mediatype data : list byte) : result (Z * Elf) :=
  note <- add_note mediatype data ;;
  let buf := fst note in
  let bufsize := snd note in
  let elf := elf_flagelf elf ELF_F_LAYOUT in
  let elf := elf_flagelf elf ELF_F_DIRTY in
  r <- find_or_add_strtab_ref elf ;;
  let sh_name := fst r in
  let elf := snd r in
  let last_offset := add_last_offset (sections elf) in
  elf <- add_ref_scn elf buf bufsize sh_name last_offset ;;
  ehdr <- or_fatal (gelf_getehdr elf) "reading program header" ;;
  let ehdr := {| e_shoff := word64 (last_offset + bufsize);
                 e_shstrndx := e_shstrndx ehdr |} in
  elf <- or_fatal (gelf_update_ehdr elf ehdr) "updating program header" ;;
  elf <- or_fatal (elf_update elf) "updating ELF" ;;
  elf <- or_fatal (elf_update elf) "updating ELF" ;;
  Ok (EXIT_SUCCESS, elf).

(** [list], on the descriptor [elf_open] returned for the file: the exit
    status and what was printed. *)
Definition list (elf : Elf) : result (Z * stdout) :=
  out <- list_sections elf (sections elf) [] ;;
  Ok (EXIT_SUCCESS, out).

End Cmd.

(** ** What the specification calls things *)

(** [round_up(n, k)]: the least multiple of [k] that is at least [n]. *)
Definition round_up (n k : Z) : Z := (n + k - 1) / k * k.

Definition header_size : Z := sizeof_note.

(** [Encode] is the record [add] builds; [Decode] is the pair of strings
    [read_section] takes from a record: the name region (the media type) and
    the description region (the data). *)
Definition Encode (m d : list byte) : result (list byte) :=
  note <- add_note m d ;;
  Ok (fst note).

Definition Decode (n : list byte) : result (list byte * list byte) :=
  desc <- note_desc n ;;
  name <- note_name n ;;
  Ok (name, desc).

(** The characters of a string literal. *)
Definition chars (s : string) : list byte := String.list_byte_of_string s.

(** A section occupies file bytes unless its type is [SHT_NOBITS]. *)
Definition byte_bearing (s : Elf_Scn) : Prop :=
  sh_type (scn_shdr s) <> SHT_NOBITS.

(** The display name of a section: the string its [sh_name] designates in
    the section-name string table. *)
Definition section_name (elf : Elf) (s : Elf_Scn) : option (list byte) :=
  ehdr ← gelf_getehdr elf;
  elf_strptr elf (e_shstrndx ehdr) (sh_name (scn_shdr s)).

(** A section is a reference section when its name is the reserved one. *)
Definition is_reference (elf : Elf) (s : Elf_Scn) : Prop :=
  section_name elf s = Some REFERENCE_SECTION_NAME.

(** [sh_offset + sh_size], as the program computes it. *)
Definition scn_end (s : Elf_Scn) : Z :=
  word64 (sh_offset (scn_shdr s) + sh_size (scn_shdr s)).

(** Two sections intersect when some file byte lies in the range
    [[sh_offset, sh_offset + sh_size)] of both. *)
Definition intersects (s t : Elf_Scn) : Prop :=
  exists x,
    sh_offset (scn_shdr s) <= x < sh_offset (scn_shdr s) + sh_size (scn_shdr s)
    /\ sh_offset (scn_shdr t) <= x < sh_offset (scn_shdr t) + sh_size (scn_shdr t).

(** The non-overlap invariant on a sequence of sections. *)
Definition no_overlap (scns : list Elf_Scn) : Prop :=
  forall i j s t,
    i <> j -> scns !! i = Some s -> scns !! j = Some t ->
    byte_bearing s -> byte_bearing t -> ~ intersects s t.

(** The range of a section lies in the 64-bit offset space. *)
Definition in_offset_space (s : Elf_Scn) : Prop :=
  0 <= sh_offset (scn_shdr s) /\ 0 <= sh_size (scn_shdr s)
  /\ sh_offset (scn_shdr s) + sh_size (scn_shdr s) < 2 ^ 64.


(** The string table section after one more name has been written at its
    end. *)
Definition extended (strtab : Elf_Scn) (str_data : Elf_Data)
    (rest : list Elf_Data) (name : list byte) : Elf_Scn :=
  let old := default [] (d_buf str_data) in
  let new_size := d_size str_data + Z.of_nat (length name) + 1 in
  {| scn_shdr :=
       {| sh_name := sh_name (scn_shdr strtab);
          sh_type := sh_type (scn_shdr strtab);
          sh_flags := sh_flags (scn_shdr strtab);
          sh_addr := sh_addr (scn_shdr strtab);
          sh_offset := sh_offset (scn_shdr strtab);
          sh_size := new_size;
          sh_link := sh_link (scn_shdr strtab);
          sh_info := sh_info (scn_shdr strtab);
          sh_addralign := sh_addralign (scn_shdr strtab);
          sh_entsize := sh_entsize (scn_shdr strtab) |};
     shdr_flags := Z.lor (shdr_flags strtab) ELF_F_DIRTY;
     scn_data :=
       {| d_buf := Some (old ++ name ++ [x00]);
          d_type := d_type str_data; d_version := d_version str_data;
          d_size := new_size; d_off := d_off str_data;
          d_align := d_align str_data;
          d_flags := Z.lor (d_flags str_data) ELF_F_DIRTY |} :: rest;
     scn_flags := scn_flags strtab |}.

#[global] Instance byte_eq_dec : EqDecision byte := Byte.byte_eq_dec.

#[global] Instance is_reference_dec (elf : Elf) (s : Elf_Scn) :
  Decision (is_reference elf s) :=
  decide (section_name elf s = Some REFERENCE_SECTION_NAME).

(** [ListReferences], in the words of the specification: for every section
    in table order, nothing when its name is not the reserved one; otherwise,
    for every data block in order, nothing when the block is null and else
    the line [data (mediaType)] decoded from it. *)
Definition record_line (n : list byte) : list byte :=
  match Decode n with
  | Ok (name, desc) => desc ++ chars " (" ++ name ++ chars ")" ++ [x0a]
  | _ => []
  end.

Definition block_lines (data : Elf_Data) : list byte :=
  match d_buf data with
  | Some n => record_line n
  | None => []
  end.

Definition section_lines (elf : Elf) (s : Elf_Scn) : list byte :=
  if decide (is_reference elf s)
  then concat (map block_lines (scn_data s))
  else [].

Definition ListReferences (elf : Elf) : list byte :=
  concat (map (section_lines elf) (sections elf)).

(** A data block that is null or holds a record with both strings
    terminated inside it. *)
Definition decodable (data : Elf_Data) : Prop :=
  forall n, d_buf data = Some n -> exists pair, Decode n = Ok pair.

(** The reference section: the section [add] creates for a record [buf] of
    [bufsize] bytes, named at [sh_name] and placed at [last_offset]. *)
Definition reference_scn (buf : list byte) (bufsize sh_name last_offset : Z)
  : Elf_Scn :=
  {| scn_shdr :=
       {| sh_name := sh_name; sh_type := SHT_NOTE; sh_flags := SHF_ALLOC;
          sh_addr := 0; sh_offset := last_offset; sh_size := bufsize;
          sh_link := 0; sh_info := 0; sh_addralign := 1; sh_entsize := 0 |};
     shdr_flags := ELF_F_DIRTY;
     scn_data :=
       [ {| d_buf := Some buf; d_type := ELF_T_BYTE; d_version := EV_CURRENT;
            d_size := bufsize; d_off := 0; d_align := 0;
            d_flags := ELF_F_DIRTY |} ];
     scn_flags := ELF_F_DIRTY |}.

(** ** Sample containers *)

Definition raw_data (b : list byte) : Elf_Data :=
  {| d_buf := Some b; d_type := ELF_T_BYTE; d_version := EV_CURRENT;
     d_size := Z.of_nat (length b); d_off := 0; d_align := 1; d_flags := 0 |}.

Definition null_scn : Elf_Scn :=
  {| scn_shdr := mkShdr 0 SHT_NULL 0 0 0 0 0 0 0 0; shdr_flags := 0;
     scn_data := []; scn_flags := 0 |}.

(** A string table section: name offset, file offset, contents. *)
Definition strtab_scn (name offset : Z) (b : list byte) : Elf_Scn :=
  {| scn_shdr := mkShdr name SHT_STRTAB 0 0 offset (Z.of_nat (length b))
                        0 0 1 0;
     shdr_flags := 0; scn_data := [raw_data b]; scn_flags := 0 |}.

(** An object whose section-name string table is the last thing before the
    section header table: [.strtab] at 64, [.shstrtab] at 65. *)
Definition elf_shstrtab_last : Elf :=
  {| elf_kind := ELF_K_ELF;
     elf_ehdr := {| e_shoff := 88; e_shstrndx := 2 |};
     ehdr_flags := 0;
     elf_scns :=
       [ null_scn;
         strtab_scn 11 64 [x00];
         strtab_scn 1 65
           ([x00] ++ chars ".shstrtab" ++ [x00] ++ chars ".strtab" ++ [x00]) ];
     elf_flags := 0 |}.

(** The same two sections in the other order: [.shstrtab] at 64 and
    [.strtab] behind it at 83. *)
Definition elf_shstrtab_first : Elf :=
  {| elf_kind := ELF_K_ELF;
     elf_ehdr := {| e_shoff := 88; e_shstrndx := 1 |};
     ehdr_flags := 0;
     elf_scns :=
       [ null_scn;
         strtab_scn 1 64
           ([x00] ++ chars ".shstrtab" ++ [x00] ++ chars ".strtab" ++ [x00]);
         strtab_scn 11 83 [x00] ];
     elf_flags := 0 |}.

(** An object whose string table holds the string [.reference] at offset 11
    although no section bears that name. *)
Definition elf_unused_name : Elf :=
  {| elf_kind := ELF_K_ELF;
     elf_ehdr := {| e_shoff := 88; e_shstrndx := 1 |};
     ehdr_flags := 0;
     elf_scns :=
       [ null_scn;
         strtab_scn 1 64
           ([x00] ++ chars ".shstrtab" ++ [x00] ++ chars ".reference"
              ++ [x00]) ];
     elf_flags := 0 |}.

(** An object with a section header whose [sh_offset + sh_size] does not
    fit 64 bits: a section at 84 of size [2 ^ 64 - 64], in front of
    [.shstrtab] at 65. *)
Definition elf_wide_section : Elf :=
  {| elf_kind := ELF_K_ELF;
     elf_ehdr := {| e_shoff := 88; e_shstrndx := 2 |};
     ehdr_flags := 0;
     elf_scns :=
       [ null_scn;
         {| scn_shdr := mkShdr 11 SHT_STRTAB 0 0 84 (2 ^ 64 - 64) 0 0 1 0;
            shdr_flags := 0; scn_data := []; scn_flags := 0 |};
         strtab_scn 1 65
           ([x00] ++ chars ".shstrtab" ++ [x00] ++ chars ".strtab" ++ [x00]) ];
     elf_flags := 0 |}.

(** [elf_shstrtab_last] after [add file text/plain hello]. *)
Definition elf_one_reference : Elf :=
  Eval vm_compute in
    match Cmd.add elf_shstrtab_last (chars "text/plain") (chars "hello") with
    | Ok r => snd r
    | _ => elf_shstrtab_last
    end.

(** A string has no NUL among its characters. *)
Definition no_nul (s : list byte) : Prop := Forall (fun c => c <> x00) s.

#[global] Instance byte_bearing_decision (s : Elf_Scn) :
  Decision (byte_bearing s) :=
  decide (sh_type (scn_shdr s) <> SHT_NOBITS).

(** The section-name string table as libelf presents it for a file just
    opened: a section of type [SHT_STRTAB] at index [e_shstrndx] with one
    data descriptor, at offset 0, that holds the whole table. *)
Definition shstrtab_as_read (elf : Elf) : Prop :=
  exists i strtab str_data buf,
    elf_getscn elf (e_shstrndx (elf_ehdr elf)) = Some i
    /\ scn_at elf i = Some strtab
    /\ sh_type (scn_shdr strtab) = SHT_STRTAB
    /\ scn_data strtab = [str_data]
    /\ d_buf str_data = Some buf
    /\ d_off str_data = 0
    /\ d_size str_data = Z.of_nat (length buf)
    /\ d_size str_data < 2 ^ 32.

(** The descriptor [add] commits once the name of the new section is
    resolved to [name] in [elf1]: the new section at the end of the table
    and the section header table moved behind it. *)
Definition committed (elf1 : Elf) (buf : list byte) (bufsize name : Z) : Elf :=
  let last_offset := add_last_offset (sections elf1) in
  {| elf_kind := elf_kind elf1;
     elf_ehdr := {| e_shoff := word64 (last_offset + bufsize);
                    e_shstrndx := e_shstrndx (elf_ehdr elf1) |};
     ehdr_flags := Z.lor (ehdr_flags elf1) ELF_F_DIRTY;
     elf_scns := table0 elf1 ++ [reference_scn buf bufsize name last_offset];
     elf_flags := elf_flags elf1 |}.

(** ** Allocation

    [calloc] returns a zeroed buffer or null.  Whether a request is granted
    is an input.  [add_note] and [add_strtab_ref] are the program where the
    request is granted; the definitions below put the null checks of lines
    267-271 and 226-230 in front of them. *)

Definition calloc_or_null (granted : bool) (n : Z) : option (list byte) :=
  if granted then Some (calloc n) else None.

(** Lines 260-278. *)
Definition add_note_alloc (granted : bool) (mediatype data : list byte)
  : result (list byte * Z) :=
  let mtlen := word32 (Z.of_nat (strlen mediatype)) in
  let dlen := word32 (Z.of_nat (strlen data)) in
  let mtlen := pad4 mtlen in
  let dlen := pad4 dlen in
  let bufsize := word64 (sizeof_note + mtlen + dlen) in
  _ <- or_fatal (calloc_or_null granted bufsize) "malloc" ;;
  add_note mediatype data.

(** Lines 209-252. *)
Definition add_strtab_ref_alloc (granted : bool) (elf : Elf)
    (ehdr : GElf_Ehdr) : result (Z * Elf) :=
  scn <- or_fatal (elf_getscn elf (e_shstrndx ehdr)) "reading string table" ;;
  s <- or_fatal (scn_at elf scn) "reading string table" ;;
  str_data <- or_fatal (elf_getdata s)
                       "getting data descriptor for string table" ;;
  let offset := word32 (d_size str_data) in
  let len := Z.of_nat (strlen REFERENCE_SECTION_NAME) in
  let new_size := word64 (offset + len + 1) in
  _ <- or_fatal (calloc_or_null granted new_size) "malloc" ;;
  add_strtab_ref elf ehdr.

(** Lines 174-253. *)
Definition find_or_add_strtab_ref_alloc (granted : bool) (elf : Elf)
  : result (Z * Elf) :=
  ehdr <- or_fatal (gelf_getehdr elf) "reading program header" ;;
  found <- find_strtab_ref elf ehdr (sections elf) ;;
  match found with
  | Some sh_name => Ok (sh_name, elf)
  | None => add_strtab_ref_alloc granted elf ehdr
  end.

(** ** The process: files, allocations, standard output and standard error

    A file is given by whether it may be opened for reading and for
    writing, and by the descriptor [elf_begin] builds from its contents,
    if it builds one.  [w_files] are the files as the process finds them.
    What [elf_update] with [ELF_C_WRITE] leaves in a file is the library's:
    the write is recorded in [w_written], the file and the descriptor
    written to it, and not applied to [w_files].  [w_heap k] tells whether
    the [k]-th allocation of the process is granted.  Command-line
    arguments are strings given by their characters. *)

#[global] Instance byte_countable : Countable byte :=
  inj_countable Byte.to_N Byte.of_N Byte.of_to_N.

Definition EXIT_FAILURE : Z := 1.
Definition O_RDONLY : Z := 0.
Definition O_RDWR : Z := 2.

(** The two commands the program passes to [elf_open]. *)
Inductive Elf_Cmd : Type := ELF_C_READ | ELF_C_RDWR.

Record File : Type := mkFile {
  f_readable : bool;
  f_writable : bool;
  f_elf : option Elf
}.

Record World : Type := mkWorld {
  w_files : gmap (list byte) File;
  w_heap : nat -> bool;
  w_stdout : stdout;
  w_stderr : list byte;
  w_written : list (list byte * Elf)
}.

(** [open(file, flags)]: the file, when it exists and the access mode is
    permitted. *)
Definition open (file : list byte) (flags : Z) (w : World) : option File :=
  f ← w_files w !! file;
  if f_readable f && ((flags =? O_RDONLY) || f_writable f)
  then Some f
  else None.

(** [elf_begin(fd, cmd, NULL)] on an open file. *)
Definition elf_begin (fd : File) (cmd : Elf_Cmd) : option Elf := f_elf fd.

Definition elf_open (file : list byte) (cmd : Elf_Cmd) (w : World)
  : result Elf :=
  let flags := match cmd with
               | ELF_C_READ => Z.lor 0 O_RDONLY
               | ELF_C_RDWR => Z.lor 0 O_RDWR
               end in
  fd <- or_fatal (open file flags w)
                 ("opening file " +:+ String.string_of_list_byte file) ;;
  or_fatal (elf_begin fd cmd)
           ("parsing file " +:+ String.string_of_list_byte file).

(** [usage]: the text on standard error, and [EXIT_FAILURE].  A null
    [progname] cannot be printed. *)
Definition usage_text (progname : list byte) : list byte :=
  chars "usage: " ++ progname ++ chars " [command] [args...]" ++ [x0a; x0a]
    ++ chars "commands:" ++ [x0a]
    ++ chars "   add         add references" ++ [x0a]
    ++ chars "   list        list references" ++ [x0a].

Definition usage (progname : option (list byte)) (w : World)
  : result (Z * World) :=
  match progname with
  | Some p =>
      Ok (EXIT_FAILURE,
          {| w_files := w_files w; w_heap := w_heap w;
             w_stdout := w_stdout w;
             w_stderr := w_stderr w ++ usage_text p;
             w_written := w_written w |})
  | None => Undefined
  end.

(** [list(file)] *)
Definition list_file (file : list byte) (w : World) : result (Z * World) :=
  elf <- elf_open file ELF_C_READ w ;;
  r <- Cmd.list elf ;;
  Ok (fst r,
      {| w_files := w_files w; w_heap := w_heap w;
         w_stdout := w_stdout w ++ snd r;
         w_stderr := w_stderr w;
         w_written := w_written w |}).

(** [add(file, mediatype, data)] (lines 255-380): the record is allocated
    and built before the file is opened; the string table is the second
    allocation. *)
Definition add_file (file mediatype data : list byte) (w : World)
  : result (Z * World) :=
  note <- add_note_alloc (w_heap w 0%nat) mediatype data ;;
  let buf := fst note in
  let bufsize := snd note in
  elf <- elf_open file ELF_C_RDWR w ;;
  let elf := elf_flagelf elf ELF_F_LAYOUT in
  let elf := elf_flagelf elf ELF_F_DIRTY in
  r <- find_or_add_strtab_ref_alloc (w_heap w 1%nat) elf ;;
  let sh_name := fst r in
  let elf := snd r in
  let last_offset := add_last_offset (sections elf) in
  elf <- add_ref_scn elf buf bufsize sh_name last_offset ;;
  ehdr <- or_fatal (gelf_getehdr elf) "reading program header" ;;
  let ehdr := {| e_shoff := word64 (last_offset + bufsize);
                 e_shstrndx := e_shstrndx ehdr |} in
  elf <- or_fatal (gelf_update_ehdr elf ehdr) "updating program header" ;;
  elf <- or_fatal (elf_update elf) "updating ELF" ;;
  elf <- or_fatal (elf_update elf) "updating ELF" ;;
  Ok (EXIT_SUCCESS,
      {| w_files := w_files w; w_heap := w_heap w;
         w_stdout := w_stdout w; w_stderr := w_stderr w;
         w_written := w_written w ++ [(file, elf)] |}).

(** [main(argc, argv)], with [argc] the length of [argv]. *)
Definition main (argv : list (list byte)) (w : World) : result (Z * World) :=
  let argc := Z.of_nat (length argv) in
  if argc <? 2 then usage (argv !! 0%nat) w
  else
    match argv !! 1%nat with
    | None => Undefined
    | Some command =>
        if strcmp command (chars "list") =? 0 then
          if argc <? 3 then usage (argv !! 0%nat) w
          else
            match argv !! 2%nat with
            | Some file => list_file file w
            | None => Undefined
            end
        else if strcmp command (chars "add") =? 0 then
          if argc <? 5 then usage (argv !! 0%nat) w
          else
            match argv !! 2%nat, argv !! 3%nat, argv !! 4%nat with
            | Some file, Some mediatype, Some data =>
                add_file file mediatype data w
            | _, _, _ => Undefined
            end
        else usage (argv !! 0%nat) w
    end.

(** A process image with one file, every allocation granted, nothing
    printed and nothing written so far. *)
Definition one_file (name : list byte) (f : File) : World :=
  {| w_files := {[ name := f ]}; w_heap := fun _ => true;
     w_stdout := []; w_stderr := []; w_written := [] |}.

(** * Buffers *)

Section Buffers.
Implicit Types (buf a b c src : list byte) (off n : Z).

Lemma Z_of_byte_of_Z z : Z_of_byte (byte_of_Z z) = z mod 256.
Proof.
  unfold Z_of_byte, byte_of_Z.
  assert (Hr : 0 <= z mod 256 < 256) by (apply Z.mod_pos_bound; lia).
  destruct (Byte.of_N (Z.to_N (z mod 256))) as [x|] eqn:E.
  - apply Byte.to_of_N in E. rewrite E. lia.
  - apply Byte.of_N_None_iff in E. lia.
Qed.

Lemma word_of_bytes_of_word w :
  0 <= w < 2 ^ 32 -> word_of_bytes (bytes_of_word w) = w.
Proof.
  intros Hw. unfold word_of_bytes, bytes_of_word. cbn [foldr].
  rewrite !Z_of_byte_of_Z.
  change (2 ^ 16) with (2 ^ 8 * 2 ^ 8).
  change (2 ^ 24) with (2 ^ 8 * 2 ^ 8 * 2 ^ 8).
  rewrite <- !Z.div_div by lia.
  change (2 ^ 8) with 256.
  pose proof (Z.div_mod w 256 ltac:(lia)).
  pose proof (Z.div_mod (w / 256) 256 ltac:(lia)).
  pose proof (Z.div_mod (w / 256 / 256) 256 ltac:(lia)).
  assert (w / 256 / 256 / 256 < 256).
  { rewrite !Z.div_div by lia. apply Z.div_lt_upper_bound; lia. }
  assert (0 <= w / 256 / 256 / 256).
  { rewrite !Z.div_div by lia. apply Z.div_pos; lia. }
  rewrite (Z.mod_small (w / 256 / 256 / 256)) by lia. lia.
Qed.

Lemma length_bytes_of_word w : length (bytes_of_word w) = 4%nat.
Proof. reflexivity. Qed.

Lemma length_calloc n : 0 <= n -> Z.of_nat (length (calloc n)) = n.
Proof. intros. unfold calloc. rewrite length_replicate. lia. Qed.

(** Writing over the middle of a buffer. *)
Lemma store_middle a b c bs off :
  off = Z.of_nat (length a) -> length bs = length b ->
  store (a ++ b ++ c) off bs = Some (a ++ bs ++ c).
Proof.
  intros -> Hl. unfold store.
  rewrite !length_app, Hl.
  replace ((0 <=? Z.of_nat (length a))
           && (Z.of_nat (length a) + Z.of_nat (length b)
               <=? Z.of_nat (length a + (length b + length c))))
    with true by (symmetry; apply andb_true_iff; split; apply Z.leb_le; lia).
  rewrite Nat2Z.id, take_app_length.
  rewrite drop_app_ge by lia.
  replace (length a + length b - length a)%nat with (length b) by lia.
  rewrite drop_app_length. reflexivity.
Qed.

Lemma load_middle a b c off n :
  off = Z.of_nat (length a) -> n = Z.of_nat (length b) ->
  load (a ++ b ++ c) off n = Some b.
Proof.
  intros -> ->. unfold load. rewrite !length_app.
  replace ((0 <=? Z.of_nat (length a)) && (0 <=? Z.of_nat (length b))
           && (Z.of_nat (length a) + Z.of_nat (length b)
               <=? Z.of_nat (length a + (length b + length c))))
    with true
    by (symmetry; rewrite !andb_true_iff; repeat split; apply Z.leb_le; lia).
  rewrite !Nat2Z.id, drop_app_length, take_app_length. reflexivity.
Qed.

Lemma store_head b c bs :
  length bs = length b -> store (b ++ c) 0 bs = Some (bs ++ c).
Proof. intros Hl. now apply (store_middle [] b c bs 0). Qed.

Lemma load_head b c n :
  n = Z.of_nat (length b) -> load (b ++ c) 0 n = Some b.
Proof. intros Hn. now apply (load_middle [] b c 0 n). Qed.

Lemma lookup_middle a b c (i : nat) :
  (i < length b)%nat -> (a ++ b ++ c) !! (length a + i)%nat = b !! i.
Proof.
  intros Hi. rewrite lookup_app_r by lia.
  replace (length a + i - length a)%nat with i by lia.
  now rewrite lookup_app_l.
Qed.

Lemma load_prefix src n :
  0 <= n <= Z.of_nat (length src) ->
  load src 0 n = Some (take (Z.to_nat n) src).
Proof.
  intros Hn. unfold load.
  replace ((0 <=? 0) && (0 <=? n) && (0 + n <=? Z.of_nat (length src)))
    with true
    by (symmetry; rewrite !andb_true_iff; repeat split; apply Z.leb_le; lia).
  reflexivity.
Qed.

Lemma memcpy_middle a b c src off n :
  off = Z.of_nat (length a) -> n = Z.of_nat (length b) ->
  (length b <= length src)%nat ->
  memcpy (a ++ b ++ c) off src n = Some (a ++ take (length b) src ++ c).
Proof.
  intros Ho -> Hl. unfold memcpy.
  rewrite load_prefix by lia. rewrite Nat2Z.id.
  apply store_middle; [assumption|].
  rewrite length_take. lia.
Qed.

Lemma store_Some buf off bs r :
  store buf off bs = Some r ->
  0 <= off /\ off + Z.of_nat (length bs) <= Z.of_nat (length buf)
  /\ length r = length buf.
Proof.
  unfold store. destruct (_ && _) eqn:E; [|discriminate].
  apply andb_true_iff in E as [Ho Hl].
  apply Z.leb_le in Ho. apply Z.leb_le in Hl.
  intros [= <-]. rewrite !length_app, length_take, length_drop. lia.
Qed.

Lemma load_Some buf off n r :
  load buf off n = Some r ->
  0 <= off /\ 0 <= n /\ off + n <= Z.of_nat (length buf)
  /\ Z.of_nat (length r) = n.
Proof.
  unfold load. destruct (_ && _) eqn:E; [|discriminate].
  apply andb_true_iff in E as [E Hl]. apply andb_true_iff in E as [Ho Hn].
  apply Z.leb_le in Ho. apply Z.leb_le in Hn. apply Z.leb_le in Hl.
  intros [= <-]. rewrite length_take, length_drop. lia.
Qed.

Lemma memcpy_Some dst off src n r :
  memcpy dst off src n = Some r ->
  0 <= off /\ off + n <= Z.of_nat (length dst) /\ length r = length dst.
Proof.
  unfold memcpy. destruct (load src 0 n) as [bs|] eqn:El; [|discriminate].
  apply load_Some in El as (_ & _ & _ & Hl).
  intros Hs. apply store_Some in Hs. lia.
Qed.
End Buffers.

(** * C strings *)

Section CStrings.
Implicit Types (s t mem : list byte).

Lemma strlen_le s : (strlen s <= length s)%nat.
Proof.
  induction s as [|c s IH]; cbn; [lia|].
  destruct (Byte.eqb c x00); lia.
Qed.

Lemma strlen_no_nul s : no_nul s -> strlen s = length s.
Proof.
  induction 1 as [|c s Hc _ IH]; cbn; [reflexivity|].
  destruct (Byte.eqb c x00) eqn:E.
  - apply Byte.byte_dec_bl in E. contradiction.
  - now rewrite IH.
Qed.

Lemma no_nul_take_strlen s : no_nul (take (strlen s) s).
Proof.
  induction s as [|c s IH]; cbn; [constructor|].
  destruct (Byte.eqb c x00) eqn:E; cbn; [constructor|].
  constructor; [|exact IH].
  intros ->. discriminate E.
Qed.

Lemma cstr_app_nul s mem : no_nul s -> cstr (s ++ x00 :: mem) = Some s.
Proof.
  induction 1 as [|c s Hc _ IH]; cbn; [reflexivity|].
  destruct (Byte.eqb c x00) eqn:E.
  - apply Byte.byte_dec_bl in E. contradiction.
  - now rewrite IH.
Qed.

Lemma cstr_no_nul mem s : cstr mem = Some s -> no_nul s.
Proof.
  revert s. induction mem as [|c mem IH]; cbn; intros s; [discriminate|].
  destruct (Byte.eqb c x00) eqn:E.
  - intros [= <-]. constructor.
  - destruct (cstr mem) as [t|]; cbn; [|discriminate].
    intros [= <-]. constructor; [|now apply IH].
    intros ->. discriminate E.
Qed.

Lemma byte_eqb_refl c : Byte.eqb c c = true.
Proof. now apply Byte.byte_dec_lb. Qed.

Lemma Z_of_byte_inj c d : Z_of_byte c = Z_of_byte d -> c = d.
Proof.
  unfold Z_of_byte. intros H. apply N2Z.inj in H.
  pose proof (Byte.of_to_N c) as Hc. rewrite H, Byte.of_to_N in Hc.
  congruence.
Qed.

Lemma Z_of_byte_nonzero c : c <> x00 -> Z_of_byte c <> 0.
Proof. intros Hc H. apply Hc, Z_of_byte_inj. exact H. Qed.

(** On strings, [strcmp] returns 0 exactly for equal arguments. *)
Lemma strcmp_eq s t : no_nul s -> no_nul t -> strcmp s t = 0 <-> s = t.
Proof.
  intros Hs. revert t.
  induction Hs as [|c s Hc _ IH]; intros t Ht; destruct Ht as [|d t Hd Ht];
    cbn.
  - tauto.
  - apply Z_of_byte_nonzero in Hd. split; [lia|discriminate].
  - apply Z_of_byte_nonzero in Hc. split; [lia|discriminate].
  - destruct (Byte.eqb c d) eqn:E.
    + apply Byte.byte_dec_bl in E. subst d. rewrite IH by assumption.
      split; congruence.
    + apply Byte.eqb_false in E. split; [|congruence].
      intros H. exfalso. apply E, Z_of_byte_inj. lia.
Qed.
End CStrings.

(** * The note codec *)

Section NoteCodec.
Implicit Types (m d : list byte).

Lemma land_3 n : 0 <= n -> Z.land n 3 = n mod 4.
Proof. intros. change 3 with (Z.ones 2). now rewrite Z.land_ones by lia. Qed.

Lemma pad4_round_up n : 0 <= n <= 2 ^ 32 - 4 -> pad4 n = round_up n 4.
Proof.
  intros Hn. unfold pad4, round_up, word32.
  rewrite (land_3 n) by lia.
  pose proof (Z.mod_pos_bound n 4 ltac:(lia)) as Hr.
  rewrite (Z.mod_small (4 - n mod 4)) by lia.
  rewrite (land_3 (4 - n mod 4)) by lia.
  pose proof (Z.div_mod n 4 ltac:(lia)) as Hq.
  assert (Hc : n mod 4 = 0 \/ n mod 4 = 1 \/ n mod 4 = 2 \/ n mod 4 = 3)
    by lia.
  assert (Hup : (n + 4 - 1) / 4 * 4
                = n + (if n mod 4 =? 0 then 0 else 4 - n mod 4)).
  { destruct (Z.eqb_spec (n mod 4) 0) as [E|E].
    - replace (n + 4 - 1) with (3 + (n / 4) * 4) by lia.
      rewrite Z.div_add by lia. change (3 / 4) with 0. lia.
    - replace (n + 4 - 1) with ((n mod 4 - 1) + (n / 4 + 1) * 4) by lia.
      rewrite Z.div_add by lia. rewrite (Z.div_small (n mod 4 - 1)) by lia.
      lia. }
  rewrite Hup.
  destruct Hc as [E|[E|[E|E]]]; rewrite E;
    [ change ((4 - 0) mod 4) with 0 | change ((4 - 1) mod 4) with 3
    | change ((4 - 2) mod 4) with 2 | change ((4 - 3) mod 4) with 1 ];
    cbn [Z.eqb]; rewrite Z.mod_small; lia.
Qed.

Lemma round_up_4_bounds n :
  0 <= n -> n <= round_up n 4 < n + 4 /\ round_up n 4 mod 4 = 0.
Proof.
  intros Hn. unfold round_up.
  pose proof (Z.div_mod (n + 4 - 1) 4 ltac:(lia)).
  pose proof (Z.mod_pos_bound (n + 4 - 1) 4 ltac:(lia)).
  split; [lia|]. apply Z.mod_mul. lia.
Qed.

(** The record as [add] leaves it: the three header words, then the media
    type and the data, each followed by the zero bytes that fill its
    field. *)
Lemma add_note_layout m d :
  Z.of_nat (strlen m) <= 2 ^ 32 - 4 ->
  Z.of_nat (strlen d) <= 2 ^ 32 - 4 ->
  let namesz := round_up (Z.of_nat (strlen m)) 4 in
  let descsz := round_up (Z.of_nat (strlen d)) 4 in
  add_note m d =
    Ok (bytes_of_word namesz ++ bytes_of_word descsz ++ bytes_of_word 0
          ++ (take (strlen m) m
                ++ replicate (Z.to_nat namesz - strlen m) x00)
          ++ (take (strlen d) d
                ++ replicate (Z.to_nat descsz - strlen d) x00),
        header_size + namesz + descsz).
Proof.
  intros Hm Hd namesz descsz.
  pose proof (round_up_4_bounds (Z.of_nat (strlen m)) ltac:(lia)) as [Hnm _].
  pose proof (round_up_4_bounds (Z.of_nat (strlen d)) ltac:(lia)) as [Hnd _].
  fold namesz in Hnm. fold descsz in Hnd.
  unfold add_note.
  rewrite !(fun z H => Z.mod_small z (2 ^ 32) H : word32 z = z) by lia.
  rewrite !pad4_round_up by lia. fold namesz descsz.
  rewrite (fun z H => Z.mod_small z (2 ^ 64) H : word64 z = z)
    by (unfold sizeof_note; lia).
  unfold calloc, sizeof_note, header_size.
  replace (Z.to_nat (12 + namesz + descsz))
    with (4 + (4 + (4 + (strlen m + ((Z.to_nat namesz - strlen m)
            + (strlen d + (Z.to_nat descsz - strlen d)))))))%nat by lia.
  rewrite !replicate_add.
  set (z4 := replicate 4 x00).
  unfold store_word, off_namesz, off_descsz, off_buf.
  rewrite (store_head z4 _ (bytes_of_word namesz)) by reflexivity.
  cbn [bind in_bounds].
  rewrite (store_middle (bytes_of_word namesz) z4 _ (bytes_of_word descsz) 4)
    by reflexivity.
  cbn [bind in_bounds].
  unfold load_word.
  rewrite (load_head (bytes_of_word namesz) _ 4) by reflexivity.
  cbn [option_map bind in_bounds].
  rewrite word_of_bytes_of_word by lia.
  pose proof (strlen_le m). pose proof (strlen_le d).
  match goal with
  | |- context [memcpy (?w1 ++ ?w2 ++ ?w3 ++ ?pm ++ ?zm ++ ?pd ++ ?zd)
                       (12 + namesz) d _] =>
      replace (w1 ++ w2 ++ w3 ++ pm ++ zm ++ pd ++ zd)
        with ((w1 ++ w2 ++ w3 ++ pm ++ zm) ++ pd ++ zd)
        by (now rewrite <- !app_assoc);
      rewrite (memcpy_middle (w1 ++ w2 ++ w3 ++ pm ++ zm) pd zd d)
  end.
  2:{ subst z4. rewrite !length_app, !length_replicate,
        !length_bytes_of_word. lia. }
  2:{ rewrite length_replicate. reflexivity. }
  2:{ rewrite length_replicate. lia. }
  cbn [bind in_bounds]. rewrite length_replicate.
  match goal with
  | |- context [memcpy ((?w1 ++ ?w2 ++ ?w3 ++ ?pm ++ ?zm) ++ ?rest) 12 m _] =>
      replace ((w1 ++ w2 ++ w3 ++ pm ++ zm) ++ rest)
        with ((w1 ++ w2 ++ w3) ++ pm ++ (zm ++ rest))
        by (now rewrite <- !app_assoc);
      rewrite (memcpy_middle (w1 ++ w2 ++ w3) pm (zm ++ rest) m)
  end.
  2:{ reflexivity. }
  2:{ rewrite length_replicate. reflexivity. }
  2:{ rewrite length_replicate. lia. }
  cbn [bind in_bounds]. rewrite length_replicate.
  f_equal. f_equal.
  rewrite <- !app_assoc. reflexivity.
Qed.

(** The padded length of a [GElf_Word]: it wraps to 0 past [2 ^ 32 - 4]. *)
Lemma pad4_word n :
  0 <= n < 2 ^ 32 ->
  0 <= pad4 n <= 2 ^ 32 - 4 /\ pad4 n <= n + 3
  /\ (n <= pad4 n -> n <= 2 ^ 32 - 4).
Proof.
  intros Hn. destruct (Z.le_gt_cases n (2 ^ 32 - 4)) as [Hle|Hgt].
  - rewrite pad4_round_up by lia.
    destruct (round_up_4_bounds n ltac:(lia)) as [Hb Hm].
    pose proof (Z.div_mod (round_up n 4) 4 ltac:(lia)) as Hq.
    rewrite Hm in Hq. lia.
  - assert (Hc : n = 2 ^ 32 - 3 \/ n = 2 ^ 32 - 2 \/ n = 2 ^ 32 - 1) by lia.
    destruct Hc as [-> | [-> | ->]]; vm_compute; repeat split; congruence.
Qed.

(** [add] builds a record exactly for strings whose padded lengths fit a
    [GElf_Word]; for longer ones a copy runs past the buffer. *)
Lemma add_note_returns m d note :
  add_note m d = Ok note ->
  Z.of_nat (strlen m) <= 2 ^ 32 - 4 /\ Z.of_nat (strlen d) <= 2 ^ 32 - 4.
Proof.
  unfold add_note.
  set (x := word32 (Z.of_nat (strlen m))).
  set (y := word32 (Z.of_nat (strlen d))).
  assert (Hx : 0 <= x < 2 ^ 32) by (apply Z.mod_pos_bound; lia).
  assert (Hy : 0 <= y < 2 ^ 32) by (apply Z.mod_pos_bound; lia).
  destruct (pad4_word x Hx) as (Hmt & Hmt3 & Hmtw).
  destruct (pad4_word y Hy) as (Hdl & Hdl3 & Hdlw).
  rewrite (Z.mod_small (sizeof_note + pad4 x + pad4 y) (2 ^ 64)
             ltac:(unfold sizeof_note; lia)
           : word64 (sizeof_note + pad4 x + pad4 y)
             = sizeof_note + pad4 x + pad4 y).
  unfold calloc, sizeof_note.
  replace (Z.to_nat (12 + pad4 x + pad4 y))
    with (4 + (4 + Z.to_nat (4 + pad4 x + pad4 y)))%nat by lia.
  rewrite !replicate_add.
  unfold store_word, off_namesz, off_descsz, off_buf.
  rewrite (store_head (replicate 4 x00) _ (bytes_of_word (pad4 x)))
    by reflexivity.
  cbn [bind in_bounds].
  rewrite (store_middle (bytes_of_word (pad4 x)) (replicate 4 x00) _
             (bytes_of_word (pad4 y)) 4) by reflexivity.
  cbn [bind in_bounds]. unfold load_word.
  rewrite (load_head (bytes_of_word (pad4 x)) _ 4) by reflexivity.
  cbn [option_map bind in_bounds].
  rewrite word_of_bytes_of_word by lia.
  match goal with
  | |- context [memcpy ?b (12 + pad4 x) d _] => set (b2 := b)
  end.
  assert (L2 : Z.of_nat (length b2) = 12 + pad4 x + pad4 y).
  { subst b2. rewrite !length_app, !length_bytes_of_word, length_replicate.
    lia. }
  destruct (memcpy b2 (12 + pad4 x) d _) as [b3|] eqn:E3;
    cbn [bind in_bounds]; [|discriminate].
  apply memcpy_Some in E3 as (_ & Hd & L3).
  destruct (memcpy b3 12 m _) as [b4|] eqn:E4;
    cbn [bind in_bounds]; [|discriminate].
  apply memcpy_Some in E4 as (_ & Hm & L4).
  intros _. rewrite L3 in Hm.
  pose proof (Z.div_mod (Z.of_nat (strlen m)) (2 ^ 32) ltac:(lia)) as Qm.
  pose proof (Z.div_mod (Z.of_nat (strlen d)) (2 ^ 32) ltac:(lia)) as Qd.
  fold (word32 (Z.of_nat (strlen m))) in Qm. fold x in Qm.
  fold (word32 (Z.of_nat (strlen d))) in Qd. fold y in Qd.
  assert (0 <= Z.of_nat (strlen m) / 2 ^ 32) by (apply Z.div_pos; lia).
  assert (0 <= Z.of_nat (strlen d) / 2 ^ 32) by (apply Z.div_pos; lia).
  assert (Ed : Z.of_nat (strlen d) = y) by nia.
  assert (Em : Z.of_nat (strlen m) = x) by nia.
  split; [|lia].
  destruct (Z.le_gt_cases x (2 ^ 32 - 4)) as [Hle|Hgt]; [lia|].
  assert (Hc : x = 2 ^ 32 - 3 \/ x = 2 ^ 32 - 2 \/ x = 2 ^ 32 - 1) by lia.
  assert (Hp : pad4 x = 0) by (destruct Hc as [-> | [-> | ->]]; reflexivity).
  lia.
Qed.

Lemma length_take_strlen m : length (take (strlen m) m) = strlen m.
Proof. rewrite length_take. pose proof (strlen_le m). lia. Qed.

(** Decoding gives the strings back when each leaves room for a NUL in
    its field, that is, when neither length is a multiple of 4. *)
Lemma round_trip_padded m d :
  no_nul m -> no_nul d ->
  Z.of_nat (length m) <= 2 ^ 32 - 4 ->
  Z.of_nat (length d) <= 2 ^ 32 - 4 ->
  Z.of_nat (length m) mod 4 <> 0 ->
  Z.of_nat (length d) mod 4 <> 0 ->
  (n <- Encode m d ;; Decode n) = Ok (m, d).
Proof.
  intros Hm Hd Blm Bld Pm Pd.
  pose proof (strlen_no_nul m Hm) as Lm.
  pose proof (strlen_no_nul d Hd) as Ld.
  unfold Encode. rewrite add_note_layout by (rewrite ?Lm, ?Ld; lia).
  rewrite Lm, Ld, !firstn_all.
  pose proof (round_up_4_bounds (Z.of_nat (length m)) ltac:(lia)) as [Hnm Hmm].
  pose proof (round_up_4_bounds (Z.of_nat (length d)) ltac:(lia)) as [Hnd Hdm].
  set (namesz := round_up (Z.of_nat (length m)) 4) in *.
  set (descsz := round_up (Z.of_nat (length d)) 4) in *.
  assert (Hpm : exists k, (Z.to_nat namesz - length m)%nat = S k).
  { exists (Z.to_nat namesz - length m - 1)%nat.
    assert (namesz <> Z.of_nat (length m)) by congruence. lia. }
  assert (Hpd : exists k, (Z.to_nat descsz - length d)%nat = S k).
  { exists (Z.to_nat descsz - length d - 1)%nat.
    assert (descsz <> Z.of_nat (length d)) by congruence. lia. }
  destruct Hpm as [km Ekm], Hpd as [kd Ekd].
  cbn [bind fst]. unfold Decode, note_desc, note_name, load_word.
  rewrite (load_head (bytes_of_word namesz) _ 4) by reflexivity.
  cbn [option_map bind in_bounds].
  rewrite word_of_bytes_of_word by lia.
  set (hdr := bytes_of_word namesz ++ bytes_of_word descsz ++ bytes_of_word 0).
  set (pm := replicate (Z.to_nat namesz - length m) x00).
  set (pd := replicate (Z.to_nat descsz - length d) x00).
  replace (bytes_of_word namesz ++ bytes_of_word descsz ++ bytes_of_word 0
             ++ (m ++ pm) ++ d ++ pd)
    with (hdr ++ (m ++ pm) ++ d ++ pd)
    by (subst hdr; now rewrite <- !app_assoc).
  assert (Lh : length hdr = 12%nat) by reflexivity.
  assert (Lpm : length pm = (Z.to_nat namesz - length m)%nat)
    by (subst pm; apply length_replicate).
  unfold cstr_at, off_buf. rewrite !length_app, Lh, Lpm.
  replace ((0 <=? 12 + namesz)
           && (12 + namesz <=? Z.of_nat
                 (12 + (length m + (Z.to_nat namesz - length m)
                        + (length d + length pd)))))
    with true
    by (symmetry; rewrite andb_true_iff; split; apply Z.leb_le; lia).
  replace ((0 <=? 12)
           && (12 <=? Z.of_nat
                 (12 + (length m + (Z.to_nat namesz - length m)
                        + (length d + length pd)))))
    with true
    by (symmetry; rewrite andb_true_iff; split; apply Z.leb_le; lia).
  replace (hdr ++ (m ++ pm) ++ d ++ pd) with ((hdr ++ m ++ pm) ++ d ++ pd)
    by (now rewrite <- !app_assoc).
  rewrite drop_app_length'
    by (rewrite !length_app, Lh, Lpm; lia).
  rewrite <- !app_assoc.
  change (Z.to_nat 12) with (length hdr). rewrite drop_app_length.
  subst pm pd. rewrite Ekm, Ekd. cbn [replicate app].
  rewrite !cstr_app_nul by assumption. reflexivity.
Qed.
End NoteCodec.

(** C8 (padding invariant).  For strings whose lengths fit a [GElf_Word]
    after padding, the record [add] builds is [header_size + round_up(len(m),
    4) + round_up(len(d), 4)] bytes long; its [namesz] and [descsz] fields
    hold the two rounded lengths, both multiples of 4; and every byte of a
    field past the end of its string is zero. *)
Theorem note_padding (m d : list byte) :
  Z.of_nat (strlen m) <= 2 ^ 32 - 4 ->
  Z.of_nat (strlen d) <= 2 ^ 32 - 4 ->
  let namesz := round_up (Z.of_nat (strlen m)) 4 in
  let descsz := round_up (Z.of_nat (strlen d)) 4 in
  exists buf,
    add_note m d = Ok (buf, header_size + namesz + descsz)
    /\ Z.of_nat (length buf) = header_size + namesz + descsz
    /\ load_word buf off_namesz = Some namesz
    /\ load_word buf off_descsz = Some descsz
    /\ namesz mod 4 = 0 /\ descsz mod 4 = 0
    /\ (forall i, Z.of_nat (strlen m) <= i < namesz ->
          buf !! Z.to_nat (off_buf + i) = Some x00)
    /\ (forall i, Z.of_nat (strlen d) <= i < descsz ->
          buf !! Z.to_nat (off_buf + namesz + i) = Some x00).
Proof.
  intros Hm Hd namesz descsz.
  pose proof (round_up_4_bounds (Z.of_nat (strlen m)) ltac:(lia)) as [Hnm Hmm].
  pose proof (round_up_4_bounds (Z.of_nat (strlen d)) ltac:(lia)) as [Hnd Hdm].
  fold namesz in Hnm, Hmm. fold descsz in Hnd, Hdm.
  eexists. split; [apply add_note_layout; assumption|].
  fold namesz descsz.
  set (w1 := bytes_of_word namesz). set (w2 := bytes_of_word descsz).
  set (w3 := bytes_of_word 0).
  set (pm := replicate (Z.to_nat namesz - strlen m) x00).
  set (pd := replicate (Z.to_nat descsz - strlen d) x00).
  assert (L1 : length w1 = 4%nat) by reflexivity.
  assert (L2 : length w2 = 4%nat) by reflexivity.
  assert (L3 : length w3 = 4%nat) by reflexivity.
  assert (Lpm : length pm = (Z.to_nat namesz - strlen m)%nat)
    by apply length_replicate.
  assert (Lpd : length pd = (Z.to_nat descsz - strlen d)%nat)
    by apply length_replicate.
  pose proof (length_take_strlen m) as Ltm.
  pose proof (length_take_strlen d) as Ltd.
  unfold header_size, sizeof_note, off_buf.
  repeat split; try assumption.
  - rewrite !length_app, L1, L2, L3, Ltm, Ltd, Lpm, Lpd. lia.
  - unfold load_word, off_namesz.
    rewrite (load_head w1 _ 4) by reflexivity. cbn [option_map].
    subst w1. now rewrite word_of_bytes_of_word by lia.
  - unfold load_word, off_descsz.
    rewrite (load_middle w1 w2 _ 4 4) by reflexivity. cbn [option_map].
    subst w2. now rewrite word_of_bytes_of_word by lia.
  - intros i Hi.
    replace (w1 ++ w2 ++ w3 ++ (take (strlen m) m ++ pm) ++ take (strlen d) d ++ pd)
      with ((w1 ++ w2 ++ w3 ++ take (strlen m) m) ++ pm ++ take (strlen d) d ++ pd)
      by (now rewrite <- !app_assoc).
    replace (Z.to_nat (12 + i))
      with (length (w1 ++ w2 ++ w3 ++ take (strlen m) m)
            + (Z.to_nat i - strlen m))%nat
      by (rewrite !length_app, L1, L2, L3, Ltm; lia).
    rewrite lookup_middle by lia.
    apply lookup_replicate_2. lia.
  - intros i Hi.
    replace (w1 ++ w2 ++ w3 ++ (take (strlen m) m ++ pm) ++ take (strlen d) d ++ pd)
      with ((w1 ++ w2 ++ w3 ++ (take (strlen m) m ++ pm) ++ take (strlen d) d)
              ++ pd ++ [])
      by (now rewrite <- !app_assoc, app_nil_r).
    replace (Z.to_nat (12 + namesz + i))
      with (length (w1 ++ w2 ++ w3 ++ (take (strlen m) m ++ pm)
                      ++ take (strlen d) d)
            + (Z.to_nat i - strlen d))%nat
      by (rewrite !length_app, L1, L2, L3, Ltm, Ltd, Lpm; lia).
    rewrite lookup_middle by lia.
    apply lookup_replicate_2. lia.
Qed.

Lemma note_padding_witness :
  exists buf, add_note (chars "text/plain") (chars "hello") = Ok (buf, 32)
              /\ load_word buf off_namesz = Some 12
              /\ load_word buf off_descsz = Some 8.
Proof.
  destruct (note_padding (chars "text/plain") (chars "hello"))
    as (buf & Hb & _ & Hn & Hd & _).
  - vm_compute. discriminate.
  - vm_compute. discriminate.
  - exists buf. repeat split; assumption.
Defined.

(** C10.  The [type] word of the record [add] builds is 0: nothing is stored
    in it after [calloc]. *)
Theorem note_type_zero (m d : list byte) :
  Z.of_nat (strlen m) <= 2 ^ 32 - 4 ->
  Z.of_nat (strlen d) <= 2 ^ 32 - 4 ->
  exists buf bufsize,
    add_note m d = Ok (buf, bufsize) /\ load_word buf off_type = Some 0.
Proof.
  intros Hm Hd. do 2 eexists. split; [apply add_note_layout; assumption|].
  unfold load_word, off_type.
  match goal with
  | |- context [load (?w1 ++ ?w2 ++ ?w3 ++ ?rest) 8 4] =>
      replace (w1 ++ w2 ++ w3 ++ rest) with ((w1 ++ w2) ++ w3 ++ rest)
        by (now rewrite <- !app_assoc);
      rewrite (load_middle (w1 ++ w2) w3 rest 8 4) by reflexivity
  end.
  reflexivity.
Qed.

Lemma note_type_zero_witness :
  exists buf bufsize,
    add_note (chars "text/plain") (chars "hello") = Ok (buf, bufsize)
    /\ load_word buf off_type = Some 0.
Proof.
  apply (note_type_zero (chars "text/plain") (chars "hello"));
    vm_compute; discriminate.
Defined.

(** C1 (round trip).  The record for ("abcd", "hello") decodes to
    ("abcdhello", "hello"): a media type of four characters fills its field,
    no NUL ends it, and the name read from the record runs on into the
    data. *)
Theorem round_trip_abcd_hello :
  (n <- Encode (chars "abcd") (chars "hello") ;; Decode n)
  = Ok (chars "abcdhello", chars "hello")
  /\ (n <- Encode (chars "abcd") (chars "hello") ;; Decode n)
     <> Ok (chars "abcd", chars "hello")
  /\ (r <- Cmd.add elf_shstrtab_last (chars "abcd") (chars "hello") ;;
      Cmd.list (snd r))
     = Ok (EXIT_SUCCESS, chars "hello (abcdhello)" ++ [x0a]).
Proof. split; [reflexivity | split; [discriminate | reflexivity]]. Qed.

(** * The layout planner *)

Section LayoutPlanner.
Implicit Types (s : Elf_Scn) (cursors : list Elf_Scn).

Lemma scn_end_nonneg s : 0 <= scn_end s.
Proof. unfold scn_end, word64. apply Z.mod_pos_bound. lia. Qed.

Lemma byte_bearing_dec s :
  negb (sh_type (scn_shdr s) =? SHT_NOBITS) = true <-> byte_bearing s.
Proof.
  unfold byte_bearing. rewrite negb_true_iff, Z.eqb_neq. reflexivity.
Qed.

Lemma last_offset_step_spec acc s :
  last_offset_step acc s
  = if negb (sh_type (scn_shdr s) =? SHT_NOBITS) then Z.max acc (scn_end s)
    else acc.
Proof.
  unfold last_offset_step, gelf_getshdr. fold (scn_end s).
  destruct (negb (sh_type (scn_shdr s) =? SHT_NOBITS)); cbn [andb];
    [|reflexivity].
  destruct (Z.ltb_spec acc (scn_end s)); lia.
Qed.

(** The scan from any starting value. *)
Lemma fold_last_offset cursors acc :
  let r := fold_left last_offset_step cursors acc in
  acc <= r
  /\ (forall s, In s cursors -> byte_bearing s -> scn_end s <= r)
  /\ (r = acc \/ exists s, In s cursors /\ byte_bearing s /\ r = scn_end s).
Proof.
  revert acc. induction cursors as [|c cursors IH]; intros acc; cbn.
  - repeat split; [lia | tauto | now left].
  - destruct (IH (last_offset_step acc c)) as (Hle & Hub & Hat).
    rewrite last_offset_step_spec in Hle, Hub, Hat |- *.
    destruct (negb (sh_type (scn_shdr c) =? SHT_NOBITS)) eqn:E.
    + apply byte_bearing_dec in E. repeat split.
      * lia.
      * intros s [<-|Hs] Hb; [lia | now apply Hub].
      * destruct Hat as [Hr | (s & Hs & Hb & Hr)].
        -- destruct (Z.max_spec acc (scn_end c)) as [[_ Hm]|[_ Hm]];
             rewrite Hm in Hr |- *.
           ++ right. exists c. repeat split; [now left | assumption..].
           ++ now left.
        -- right. exists s. auto.
    + repeat split.
      * lia.
      * intros s [<-|Hs] Hb; [|now apply Hub].
        unfold byte_bearing in Hb. apply negb_false_iff, Z.eqb_eq in E.
        contradiction.
      * destruct Hat as [Hr | (s & Hs & Hb & Hr)];
          [now left | right; exists s; auto].
Qed.
End LayoutPlanner.

(** C7 (layout planner).  The offset the scan of [add] ends with is the
    maximum of [sh_offset + sh_size] over the sections whose type is not
    [SHT_NOBITS]: it bounds each of them and is the value of one of them; it
    is 0 when there is none.  The sum is the program's, in 64 bits, and is
    the plain sum whenever that fits. *)
Theorem last_offset_is_max (elf : Elf) :
  let r := add_last_offset (sections elf) in
  (forall s, In s (sections elf) -> byte_bearing s -> scn_end s <= r)
  /\ ((exists s, In s (sections elf) /\ byte_bearing s /\ r = scn_end s)
      \/ r = 0)
  /\ ((forall s, In s (sections elf) -> ~ byte_bearing s) -> r = 0)
  /\ (forall s,
        0 <= sh_offset (scn_shdr s) + sh_size (scn_shdr s) < 2 ^ 64 ->
        scn_end s = sh_offset (scn_shdr s) + sh_size (scn_shdr s)).
Proof.
  intros r.
  destruct (fold_last_offset (sections elf) 0) as (_ & Hub & Hat).
  change (fold_left last_offset_step (sections elf) 0) with r in Hub, Hat.
  repeat split.
  - exact Hub.
  - destruct Hat as [Hr|Hs]; [now right | now left].
  - intros Hnone. destruct Hat as [Hr | (s & Hs & Hb & _)]; [exact Hr|].
    now destruct (Hnone s Hs).
  - intros s Hs. unfold scn_end, word64. now apply Z.mod_small.
Qed.

(** C7, as the claim states it, fails where [sh_offset + sh_size] does not
    fit 64 bits.  In [elf_wide_section] the section at 84 has size
    [2 ^ 64 - 64]; the program's sum is 20, the scan ends with 84, the end
    of [.shstrtab], and that is below the offset plus the size of the
    section at 84. *)
Lemma last_offset_below_plain_sum :
  add_last_offset (sections elf_wide_section) = 84
  /\ ~ (forall s, In s (sections elf_wide_section) -> byte_bearing s ->
                  sh_offset (scn_shdr s) + sh_size (scn_shdr s)
                  <= add_last_offset (sections elf_wide_section)).
Proof.
  split; [reflexivity|].
  intros H. specialize (H _ (or_introl eq_refl)).
  assert (Hb : byte_bearing
                 {| scn_shdr := mkShdr 11 SHT_STRTAB 0 0 84 (2 ^ 64 - 64)
                                       0 0 1 0;
                    shdr_flags := 0; scn_data := []; scn_flags := 0 |})
    by discriminate.
  specialize (H Hb). vm_compute in H. now apply H.
Qed.

(** * The string table manager *)

Section StringTable.
Implicit Types (elf : Elf) (s : Elf_Scn) (cursors : list Elf_Scn).

Lemma REFERENCE_no_nul : no_nul REFERENCE_SECTION_NAME.
Proof. unfold REFERENCE_SECTION_NAME. repeat constructor; discriminate. Qed.

Lemma cstr_at_no_nul buf off name : cstr_at buf off = Some name -> no_nul name.
Proof.
  unfold cstr_at. destruct (_ && _); [apply cstr_no_nul | discriminate].
Qed.

Lemma elf_strptr_no_nul elf idx offset name :
  elf_strptr elf idx offset = Some name -> no_nul name.
Proof.
  unfold elf_strptr.
  destruct (elf_getscn elf idx) as [scn|]; cbn; [|discriminate].
  destruct (scn_at elf scn) as [strscn|]; cbn; [|discriminate].
  destruct (negb _); [discriminate|].
  destruct (_ <=? _); [discriminate|].
  destruct (find _ _) as [dl|]; cbn; [|discriminate].
  destruct (d_buf dl) as [buf|]; cbn; [|discriminate].
  apply cstr_at_no_nul.
Qed.

(** What [strcmp] against the reserved name decides. *)
Lemma strcmp_reference elf idx offset name :
  elf_strptr elf idx offset = Some name ->
  (strcmp name REFERENCE_SECTION_NAME =? 0) = true
  <-> name = REFERENCE_SECTION_NAME.
Proof.
  intros H. rewrite Z.eqb_eq.
  apply strcmp_eq; [eapply elf_strptr_no_nul; eassumption|].
  apply REFERENCE_no_nul.
Qed.

Lemma section_name_ehdr elf ehdr s :
  gelf_getehdr elf = Some ehdr ->
  section_name elf s = elf_strptr elf (e_shstrndx ehdr) (sh_name (scn_shdr s)).
Proof. intros H. unfold section_name. now rewrite H. Qed.

(** The search stops at the first section named [.reference]. *)
Lemma find_strtab_ref_some elf ehdr cursors :
  gelf_getehdr elf = Some ehdr ->
  Forall (fun s => section_name elf s <> None) cursors ->
  (exists s, In s cursors /\ is_reference elf s) ->
  exists s, In s cursors /\ is_reference elf s
            /\ find_strtab_ref elf ehdr cursors
               = Ok (Some (sh_name (scn_shdr s))).
Proof.
  intros He Hall. induction Hall as [|c cursors Hc Hall IH];
    intros (s & Hin & Hs); [destruct Hin|].
  cbn [find_strtab_ref]. unfold gelf_getshdr.
  rewrite (section_name_ehdr elf ehdr c He) in Hc.
  destruct (elf_strptr elf (e_shstrndx ehdr) (sh_name (scn_shdr c)))
    as [name|] eqn:En; [|contradiction].
  cbn [or_fatal bind].
  destruct (strcmp name REFERENCE_SECTION_NAME =? 0) eqn:Ec.
  - exists c. split; [now left|]. split; [|reflexivity].
    unfold is_reference. rewrite (section_name_ehdr elf ehdr c He), En.
    f_equal. eapply strcmp_reference; eassumption.
  - destruct IH as (s' & Hin' & Hs' & Hf).
    + destruct Hin as [<-|Hin]; [|now exists s].
      unfold is_reference in Hs.
      rewrite (section_name_ehdr elf ehdr c He), En in Hs.
      injection Hs as Hs.
      apply (strcmp_reference elf _ _ _ En) in Hs. congruence.
    + exists s'. split; [now right|]. split; assumption.
Qed.

(** Without such a section the search runs to the end. *)
Lemma find_strtab_ref_none elf ehdr cursors :
  gelf_getehdr elf = Some ehdr ->
  Forall (fun s => section_name elf s <> None) cursors ->
  (forall s, In s cursors -> ~ is_reference elf s) ->
  find_strtab_ref elf ehdr cursors = Ok None.
Proof.
  intros He Hall. induction Hall as [|c cursors Hc Hall IH]; intros Hno;
    [reflexivity|].
  cbn [find_strtab_ref]. unfold gelf_getshdr.
  rewrite (section_name_ehdr elf ehdr c He) in Hc.
  destruct (elf_strptr elf (e_shstrndx ehdr) (sh_name (scn_shdr c)))
    as [name|] eqn:En; [|contradiction].
  cbn [or_fatal bind].
  destruct (strcmp name REFERENCE_SECTION_NAME =? 0) eqn:Ec.
  - exfalso. apply (Hno c); [now left|].
    unfold is_reference. rewrite (section_name_ehdr elf ehdr c He), En.
    f_equal. eapply strcmp_reference; eassumption.
  - apply IH. intros s Hs. apply Hno. now right.
Qed.

(** What a finished search tells about the sections it went through. *)
Lemma find_strtab_ref_inv elf ehdr cursors found :
  gelf_getehdr elf = Some ehdr ->
  find_strtab_ref elf ehdr cursors = Ok found ->
  match found with
  | Some off =>
      exists s, In s cursors /\ is_reference elf s
                /\ off = sh_name (scn_shdr s)
  | None =>
      Forall (fun s => section_name elf s <> None /\ ~ is_reference elf s)
             cursors
  end.
Proof.
  intros He. induction cursors as [|c cursors IH]; cbn [find_strtab_ref].
  - intros [= <-]. constructor.
  - unfold gelf_getshdr.
    destruct (elf_strptr elf (e_shstrndx ehdr) (sh_name (scn_shdr c)))
      as [name|] eqn:En; cbn [or_fatal bind]; [|discriminate].
    destruct (strcmp name REFERENCE_SECTION_NAME =? 0) eqn:Ec.
    + intros [= <-]. exists c. split; [now left|]. split; [|reflexivity].
      unfold is_reference. rewrite (section_name_ehdr elf ehdr c He), En.
      f_equal. eapply strcmp_reference; eassumption.
    + intros Hf. specialize (IH Hf). destruct found as [off|].
      * destruct IH as (s & Hin & Hs & Hoff). exists s.
        split; [now right|]. split; assumption.
      * constructor; [|exact IH].
        unfold is_reference. rewrite (section_name_ehdr elf ehdr c He), En.
        split; [discriminate|]. intros [= Hn].
        apply (strcmp_reference elf _ _ _ En) in Hn. congruence.
Qed.

Lemma is_reference_ehdr elf s :
  is_reference elf s -> exists ehdr, gelf_getehdr elf = Some ehdr.
Proof.
  unfold is_reference, section_name.
  destruct (gelf_getehdr elf) as [ehdr|]; [eauto | discriminate].
Qed.

(** With a section named [.reference] a returning call changes nothing. *)
Lemma find_or_add_found elf off elf1 :
  (exists s, In s (sections elf) /\ is_reference elf s) ->
  find_or_add_strtab_ref elf = Ok (off, elf1) ->
  elf1 = elf
  /\ exists s, In s (sections elf) /\ is_reference elf s
               /\ off = sh_name (scn_shdr s).
Proof.
  intros (s0 & Hin0 & Hs0) Hcall.
  destruct (is_reference_ehdr elf s0 Hs0) as [ehdr He].
  unfold find_or_add_strtab_ref in Hcall. rewrite He in Hcall.
  cbn [or_fatal bind] in Hcall.
  destruct (find_strtab_ref elf ehdr (sections elf)) as [found| |] eqn:Ef;
    cbn [bind] in Hcall; try discriminate.
  pose proof (find_strtab_ref_inv elf ehdr _ _ He Ef) as Hinv.
  destruct found as [off'|].
  - injection Hcall as <- <-. now split.
  - exfalso. rewrite Forall_forall in Hinv.
    apply list_elem_of_In in Hin0. now destruct (Hinv s0 Hin0).
Qed.

Lemma memcpy_head b c src n :
  n = Z.of_nat (length b) -> (length b <= length src)%nat ->
  memcpy (b ++ c) 0 src n = Some (take (length b) src ++ c).
Proof. intros Hn Hl. now apply (memcpy_middle [] b c src 0 n). Qed.

Lemma insert_alter_same {A} (f : A -> A) (l : list A) (i : nat) (x : A) :
  <[i := x]> (alter f i l) = <[i := x]> l.
Proof.
  revert i. induction l as [|y l IH]; intros [|i]; cbn; try reflexivity.
  f_equal. apply IH.
Qed.

Lemma add_strtab_ref_ok elf ehdr i strtab str_data rest :
  elf_getscn elf (e_shstrndx ehdr) = Some i ->
  scn_at elf i = Some strtab ->
  scn_data strtab = str_data :: rest ->
  d_size str_data = Z.of_nat (length (default [] (d_buf str_data))) ->
  d_size str_data < 2 ^ 32 ->
  add_strtab_ref elf ehdr
  = Ok (d_size str_data,
        with_scns elf
          (<[i := extended strtab str_data rest REFERENCE_SECTION_NAME]>
             (elf_scns elf))).
Proof.
  intros Hi Hs Hd Hlen Hsz. unfold add_strtab_ref.
  rewrite Hi. cbn [or_fatal bind]. rewrite Hs. cbn [or_fatal bind].
  unfold elf_getdata. rewrite Hd. cbn [head or_fatal bind].
  set (old := default [] (d_buf str_data)) in *.
  rewrite (Z.mod_small (d_size str_data) (2 ^ 32) ltac:(lia)
           : word32 (d_size str_data) = d_size str_data).
  change (Z.of_nat (strlen REFERENCE_SECTION_NAME)) with 10.
  rewrite (Z.mod_small (d_size str_data + 10 + 1) (2 ^ 64) ltac:(lia)
           : word64 (d_size str_data + 10 + 1) = d_size str_data + 10 + 1).
  unfold calloc.
  replace (Z.to_nat (d_size str_data + 10 + 1)) with (length old + 11)%nat
    by lia.
  rewrite replicate_add.
  rewrite memcpy_head by (rewrite length_replicate; lia).
  rewrite length_replicate, firstn_all. cbn [in_bounds bind].
  rewrite <- (app_nil_r (replicate 11 x00)).
  rewrite (memcpy_middle old (replicate 11 x00) [])
    by (try reflexivity; lia).
  cbn [in_bounds bind].
  change (take (length (replicate 11 x00)) (REFERENCE_SECTION_NAME ++ [x00]))
    with (REFERENCE_SECTION_NAME ++ [x00]).
  rewrite app_nil_r.
  unfold scn_at, set_data, with_scns in *. cbn [elf_scns].
  rewrite list_lookup_alter_eq, Hs. cbn [fmap option_fmap option_map or_fatal bind].
  unfold gelf_update_shdr, scn_at, with_scns. cbn [elf_scns].
  rewrite list_lookup_alter_eq, Hs.
  cbn [fmap option_fmap option_map or_fatal bind gelf_getshdr scn_shdr
       shdr_flags scn_data scn_flags d_size elf_kind elf_ehdr ehdr_flags
       elf_flags].
  rewrite Hd. cbn [insert list_insert].
  rewrite insert_alter_same.
  unfold extended. fold old.
  change (Z.of_nat (length REFERENCE_SECTION_NAME)) with 10.
  reflexivity.
Qed.
End StringTable.

(** C4 (string table idempotence).  In a container with a section named
    [.reference], a call of [find_or_add_strtab_ref] that returns leaves the
    descriptor as it was, string table included, and returns the name offset
    of such a section; the call after it returns the same offset and again
    changes nothing.  The call returns whenever every section name can be
    read. *)
Theorem find_or_add_twice (elf : Elf) :
  (exists s, In s (sections elf) /\ is_reference elf s) ->
  (forall off elf1,
      find_or_add_strtab_ref elf = Ok (off, elf1) ->
      elf1 = elf
      /\ find_or_add_strtab_ref elf1 = Ok (off, elf1)
      /\ exists s, In s (sections elf) /\ is_reference elf s
                   /\ off = sh_name (scn_shdr s))
  /\ (Forall (fun s => section_name elf s <> None) (sections elf) ->
      exists off, find_or_add_strtab_ref elf = Ok (off, elf)).
Proof.
  intros Href. pose proof Href as (s0 & Hin0 & Hs0).
  destruct (is_reference_ehdr elf s0 Hs0) as [ehdr He].
  split.
  - intros off elf1 Hcall.
    destruct (find_or_add_found elf off elf1 Href Hcall) as [-> Hs].
    repeat split; assumption.
  - intros Hall.
    destruct (find_strtab_ref_some elf ehdr (sections elf) He Hall Href)
      as (s & _ & _ & Hf).
    exists (sh_name (scn_shdr s)). unfold find_or_add_strtab_ref.
    rewrite He. cbn [or_fatal bind]. rewrite Hf. reflexivity.
Qed.

Lemma find_or_add_twice_witness :
  exists off,
    find_or_add_strtab_ref elf_one_reference = Ok (off, elf_one_reference).
Proof.
  assert (Href : exists s, In s (sections elf_one_reference)
                           /\ is_reference elf_one_reference s).
  { eexists. split; [right; right; left; reflexivity | reflexivity]. }
  destruct (find_or_add_twice elf_one_reference Href) as [_ Hret].
  apply Hret. repeat constructor; discriminate.
Defined.

(** C6 (appending to the string table).  When no section is named
    [.reference], [find_or_add_strtab_ref] writes the name and a NUL at the
    end of the string table's buffer, leaves every earlier byte where it
    was, makes the section's [sh_size] the new buffer size, and returns the
    offset of the new entry: the size the buffer had. *)
Theorem find_or_add_appends (elf : Elf) (ehdr : GElf_Ehdr) (i : nat)
    (strtab : Elf_Scn) (str_data : Elf_Data) (rest : list Elf_Data) :
  gelf_getehdr elf = Some ehdr ->
  Forall (fun s => section_name elf s <> None) (sections elf) ->
  (forall s, In s (sections elf) -> ~ is_reference elf s) ->
  elf_getscn elf (e_shstrndx ehdr) = Some i ->
  scn_at elf i = Some strtab ->
  scn_data strtab = str_data :: rest ->
  d_size str_data = Z.of_nat (length (default [] (d_buf str_data))) ->
  d_size str_data < 2 ^ 32 ->
  let old := default [] (d_buf str_data) in
  let new := old ++ REFERENCE_SECTION_NAME ++ [x00] in
  exists elf' strtab' str_data',
    find_or_add_strtab_ref elf = Ok (Z.of_nat (length old), elf')
    /\ scn_at elf' i = Some strtab'
    /\ scn_data strtab' = str_data' :: rest
    /\ d_buf str_data' = Some new
    /\ (forall k, (k < length old)%nat -> new !! k = old !! k)
    /\ cstr_at new (Z.of_nat (length old)) = Some REFERENCE_SECTION_NAME
    /\ d_size str_data' = Z.of_nat (length new)
    /\ sh_size (scn_shdr strtab') = Z.of_nat (length new)
    /\ (forall j, j <> i -> scn_at elf' j = scn_at elf j).
Proof.
  intros He Hall Hno Hi Hs Hd Hlen Hsz old new.
  assert (Hil : (i < length (elf_scns elf))%nat)
    by (apply lookup_lt_is_Some; unfold scn_at in Hs; rewrite Hs; eauto).
  assert (Lnew : Z.of_nat (length new) = d_size str_data + 10 + 1).
  { subst new. rewrite !length_app. fold old in Hlen. rewrite Hlen.
    change (length REFERENCE_SECTION_NAME) with 10%nat. cbn [length]. lia. }
  exists (with_scns elf
            (<[i := extended strtab str_data rest REFERENCE_SECTION_NAME]>
               (elf_scns elf))),
    (extended strtab str_data rest REFERENCE_SECTION_NAME).
  eexists. split; [|split; [|split; [reflexivity|]]].
  - unfold find_or_add_strtab_ref. rewrite He. cbn [or_fatal bind].
    rewrite (find_strtab_ref_none elf ehdr _ He Hall Hno). cbn [bind].
    fold old in Hlen. rewrite <- Hlen.
    now apply add_strtab_ref_ok.
  - unfold scn_at, with_scns. cbn [elf_scns].
    now apply list_lookup_insert_eq.
  - cbn [d_buf d_size scn_shdr sh_size extended].
    change (Z.of_nat (length REFERENCE_SECTION_NAME)) with 10.
    repeat split.
    + intros k Hk. subst new. now rewrite lookup_app_l.
    + unfold cstr_at. subst new.
      replace ((0 <=? Z.of_nat (length old))
               && (Z.of_nat (length old)
                   <=? Z.of_nat (length (old ++ REFERENCE_SECTION_NAME
                                           ++ [x00]))))
        with true
        by (symmetry; rewrite andb_true_iff, !length_app;
            split; apply Z.leb_le; lia).
      rewrite Nat2Z.id, drop_app_length.
      apply cstr_app_nul, REFERENCE_no_nul.
    + lia.
    + lia.
    + intros j Hj. unfold scn_at, with_scns. cbn [elf_scns].
      now apply list_lookup_insert_ne.
Qed.

Lemma find_or_add_appends_witness :
  exists elf' strtab',
    find_or_add_strtab_ref elf_shstrtab_last = Ok (19, elf')
    /\ scn_at elf' 2 = Some strtab'
    /\ sh_size (scn_shdr strtab') = 30.
Proof.
  destruct (find_or_add_appends elf_shstrtab_last
              (elf_ehdr elf_shstrtab_last) 2
              (strtab_scn 1 65
                 ([x00] ++ chars ".shstrtab" ++ [x00] ++ chars ".strtab"
                    ++ [x00]))
              (raw_data ([x00] ++ chars ".shstrtab" ++ [x00]
                           ++ chars ".strtab" ++ [x00])) [])
    as (elf' & strtab' & str_data' & Hcall & Hat & _ & _ & _ & _ & _ & Hsz & _).
  - reflexivity.
  - repeat constructor; discriminate.
  - intros s [<-|[<-|[]]]; discriminate.
  - reflexivity.
  - reflexivity.
  - reflexivity.
  - reflexivity.
  - reflexivity.
  - exists elf', strtab'. repeat split; assumption.
Defined.

(** C5, as the program has it.  The lookup is by section, not by string
    value.  When some section is named [.reference] the call returns the
    name offset of such a section and the table stays as it is.  When no
    section is, the name is appended and the table grows by its length
    plus one, whatever strings the table already holds. *)
Theorem find_or_add_by_section (elf : Elf) (ehdr : GElf_Ehdr) :
  gelf_getehdr elf = Some ehdr ->
  Forall (fun s => section_name elf s <> None) (sections elf) ->
  ((exists s, In s (sections elf) /\ is_reference elf s) ->
   exists s, In s (sections elf) /\ is_reference elf s
             /\ find_or_add_strtab_ref elf = Ok (sh_name (scn_shdr s), elf))
  /\ ((forall s, In s (sections elf) -> ~ is_reference elf s) ->
      forall i strtab str_data rest,
        elf_getscn elf (e_shstrndx ehdr) = Some i ->
        scn_at elf i = Some strtab ->
        scn_data strtab = str_data :: rest ->
        d_size str_data = Z.of_nat (length (default [] (d_buf str_data))) ->
        d_size str_data < 2 ^ 32 ->
        exists elf' strtab' str_data',
          find_or_add_strtab_ref elf = Ok (d_size str_data, elf')
          /\ scn_at elf' i = Some strtab'
          /\ scn_data strtab' = str_data' :: rest
          /\ d_size str_data'
             = d_size str_data
               + (Z.of_nat (length REFERENCE_SECTION_NAME) + 1)
          /\ sh_size (scn_shdr strtab') = d_size str_data').
Proof.
  intros He Hall. split.
  - intros Href.
    destruct (find_strtab_ref_some elf ehdr (sections elf) He Hall Href)
      as (s & Hin & Hs & Hf).
    exists s. split; [assumption|]. split; [assumption|].
    unfold find_or_add_strtab_ref. rewrite He. cbn [or_fatal bind].
    rewrite Hf. reflexivity.
  - intros Hno i strtab str_data rest Hi Hs Hd Hlen Hsz.
    assert (Hil : (i < length (elf_scns elf))%nat)
      by (apply lookup_lt_is_Some; unfold scn_at in Hs; rewrite Hs; eauto).
    exists (with_scns elf
              (<[i := extended strtab str_data rest REFERENCE_SECTION_NAME]>
                 (elf_scns elf))),
      (extended strtab str_data rest REFERENCE_SECTION_NAME).
    eexists. split; [|split; [|split; [reflexivity|]]].
    + unfold find_or_add_strtab_ref. rewrite He. cbn [or_fatal bind].
      rewrite (find_strtab_ref_none elf ehdr _ He Hall Hno). cbn [bind].
      now apply add_strtab_ref_ok.
    + unfold scn_at, with_scns. cbn [elf_scns].
      now apply list_lookup_insert_eq.
    + cbn [d_size scn_shdr sh_size extended]. split; [lia | reflexivity].
Qed.

Lemma find_or_add_by_section_witness :
  (exists elf', find_or_add_strtab_ref elf_unused_name = Ok (22, elf'))
  /\ (exists s,
        find_or_add_strtab_ref elf_one_reference
        = Ok (sh_name (scn_shdr s), elf_one_reference)).
Proof.
  destruct (find_or_add_by_section elf_unused_name
              (elf_ehdr elf_unused_name)) as [_ Happend].
  { reflexivity. }
  { repeat constructor; discriminate. }
  destruct (find_or_add_by_section elf_one_reference
              (elf_ehdr elf_one_reference)) as [Hfound _].
  { reflexivity. }
  { repeat constructor; discriminate. }
  destruct (Happend ltac:(intros s [<-|[]]; discriminate) 1%nat
              (strtab_scn 1 64
                 ([x00] ++ chars ".shstrtab" ++ [x00] ++ chars ".reference"
                    ++ [x00]))
              (raw_data ([x00] ++ chars ".shstrtab" ++ [x00]
                           ++ chars ".reference" ++ [x00])) []
              eq_refl eq_refl eq_refl eq_refl eq_refl)
    as (elf' & _ & _ & Hcall & _).
  split; [exists elf'; exact Hcall|].
  destruct Hfound as (s & _ & _ & Hs).
  { eexists. split; [right; right; left; reflexivity | reflexivity]. }
  exists s. exact Hs.
Defined.

(** C5, as the specification words it, fails on [elf_unused_name]: the
    string [.reference] is an entry of the table, at offset 11, and the call
    appends it a second time, at offset 22, growing the table from 22 to 33
    bytes. *)
Lemma lookup_by_value_fails :
  elf_strptr elf_unused_name (e_shstrndx (elf_ehdr elf_unused_name)) 11
  = Some REFERENCE_SECTION_NAME
  /\ (sh_size <$> (scn_shdr <$> scn_at elf_unused_name 1)) = Some 22
  /\ exists elf',
       find_or_add_strtab_ref elf_unused_name = Ok (22, elf')
       /\ (sh_size <$> (scn_shdr <$> scn_at elf' 1)) = Some 33
       /\ elf' <> elf_unused_name.
Proof.
  split; [reflexivity|]. split; [reflexivity|].
  eexists. split; [vm_compute; reflexivity|].
  split; [reflexivity | discriminate].
Qed.

(** * The reference section writer *)

Section Writer.
Implicit Types (elf : Elf) (s : Elf_Scn).

Lemma alter_last {A} (f : A -> A) (l : list A) (x : A) :
  alter f (length l) (l ++ [x]) = l ++ [f x].
Proof.
  rewrite <- (Nat.add_0_r (length l)) at 1. now rewrite alter_app_r.
Qed.

Lemma insert_last {A} (l : list A) (x y : A) :
  <[length l := y]> (l ++ [x]) = l ++ [y].
Proof.
  rewrite <- (Nat.add_0_r (length l)) at 1. now rewrite insert_app_r.
Qed.

Lemma lookup_last {A} (l : list A) (x : A) : (l ++ [x]) !! length l = Some x.
Proof. now apply list_lookup_middle. Qed.

Lemma tail_app_last {A} (l : list A) (x : A) :
  l <> [] -> tail (l ++ [x]) = tail l ++ [x].
Proof. destruct l; [contradiction | reflexivity]. Qed.

Lemma add_ref_scn_ok elf buf bufsize name last_offset :
  is_elf elf = true ->
  add_ref_scn elf buf bufsize name last_offset
  = Ok (with_scns elf
          (table0 elf ++ [reference_scn buf bufsize name last_offset])).
Proof.
  intros He. unfold add_ref_scn, elf_newscn. rewrite He.
  cbn [or_fatal bind fst snd].
  unfold elf_newdata, elf_flagscn, scn_at, with_scns. cbn [elf_scns].
  rewrite alter_last, lookup_last. cbn [or_fatal bind fst snd].
  unfold set_data, with_scns. cbn [elf_scns].
  rewrite insert_last, alter_last.
  unfold scn_at. cbn [elf_scns]. rewrite lookup_last.
  cbn [or_fatal bind]. unfold gelf_update_shdr, scn_at. cbn [elf_scns].
  rewrite lookup_last. unfold with_scns. cbn [elf_scns].
  rewrite insert_last. reflexivity.
Qed.

Lemma sections_table0 elf s :
  is_elf elf = true ->
  sections (with_scns elf (table0 elf ++ [s])) = sections elf ++ [s].
Proof.
  intros He. unfold sections, with_scns, is_elf in *. cbn [elf_kind elf_scns].
  destruct (elf_kind elf); try discriminate.
  unfold table0. destruct (elf_scns elf); reflexivity.
Qed.

Lemma gelf_getehdr_is_elf elf ehdr :
  gelf_getehdr elf = Some ehdr -> is_elf elf = true /\ ehdr = elf_ehdr elf.
Proof.
  unfold gelf_getehdr. destruct (is_elf elf); [|discriminate].
  intros [= <-]. now split.
Qed.

Lemma add_strtab_ref_kind elf ehdr off elf1 :
  add_strtab_ref elf ehdr = Ok (off, elf1) -> elf_kind elf1 = elf_kind elf.
Proof.
  unfold add_strtab_ref.
  destruct (elf_getscn elf (e_shstrndx ehdr)) as [scn|];
    cbn [or_fatal bind]; [|discriminate].
  destruct (scn_at elf scn) as [s|]; cbn [or_fatal bind]; [|discriminate].
  destruct (elf_getdata s) as [str_data|]; cbn [or_fatal bind];
    [|discriminate].
  destruct (memcpy _ 0 _ _) as [t1|]; cbn [in_bounds bind]; [|discriminate].
  destruct (memcpy t1 _ _ _) as [t2|]; cbn [in_bounds bind]; [|discriminate].
  destruct (scn_at _ scn) as [s'|]; cbn [or_fatal bind]; [|discriminate].
  unfold gelf_update_shdr.
  destruct (scn_at _ scn) as [s''|]; cbn [or_fatal bind]; [|discriminate].
  intros [= _ <-]. reflexivity.
Qed.

Lemma find_or_add_is_elf elf off elf1 :
  find_or_add_strtab_ref elf = Ok (off, elf1) -> is_elf elf1 = true.
Proof.
  unfold find_or_add_strtab_ref.
  destruct (gelf_getehdr elf) as [ehdr|] eqn:He; cbn [or_fatal bind];
    [|discriminate].
  apply gelf_getehdr_is_elf in He as [He _].
  destruct (find_strtab_ref elf ehdr (sections elf)) as [[nm|]| |];
    cbn [bind]; try discriminate.
  - now intros [= _ <-].
  - intros H. apply add_strtab_ref_kind in H.
    unfold is_elf in *. now rewrite H.
Qed.

(** What a successful [add] has done, step by step. *)
Lemma add_inv elf m d status elf' :
  Cmd.add elf m d = Ok (status, elf') ->
  exists buf bufsize name elf1,
    add_note m d = Ok (buf, bufsize)
    /\ find_or_add_strtab_ref
         (elf_flagelf (elf_flagelf elf ELF_F_LAYOUT) ELF_F_DIRTY)
       = Ok (name, elf1)
    /\ sections elf'
       = sections elf1
           ++ [reference_scn buf bufsize name
                 (add_last_offset (sections elf1))]
    /\ e_shoff (elf_ehdr elf')
       = word64 (add_last_offset (sections elf1) + bufsize).
Proof.
  unfold Cmd.add.
  destruct (add_note m d) as [[buf bufsize]| |] eqn:En; cbn [bind fst snd];
    try discriminate.
  destruct (find_or_add_strtab_ref _) as [[name elf1]| |] eqn:Ef;
    cbn [bind fst snd]; try discriminate.
  pose proof (find_or_add_is_elf _ _ _ Ef) as He1.
  rewrite add_ref_scn_ok by assumption. cbn [bind].
  unfold gelf_getehdr, gelf_update_ehdr, is_elf, with_scns in *.
  cbn [elf_kind elf_ehdr]. destruct (elf_kind elf1) eqn:Ek; try discriminate.
  cbn [or_fatal bind elf_update e_shstrndx].
  intros [= _ <-]. exists buf, bufsize, name, elf1.
  repeat split.
  pose proof (sections_table0 elf1
                (reference_scn buf bufsize name
                   (add_last_offset (sections elf1)))) as Hs.
  unfold sections, is_elf, with_scns in *. cbn [elf_kind elf_scns] in *.
  rewrite Ek in *. now apply Hs.
Qed.

Lemma find_strtab_ref_total elf ehdr (cursors : list Elf_Scn) :
  gelf_getehdr elf = Some ehdr ->
  Forall (fun s => section_name elf s <> None) cursors ->
  exists found, find_strtab_ref elf ehdr cursors = Ok found.
Proof.
  intros He Hall. induction Hall as [|c cursors Hc _ IH];
    cbn [find_strtab_ref]; [eauto|].
  unfold gelf_getshdr. rewrite (section_name_ehdr elf ehdr c He) in Hc.
  destruct (elf_strptr elf (e_shstrndx ehdr) (sh_name (scn_shdr c)))
    as [name|]; [|contradiction].
  cbn [or_fatal bind]. destruct (_ =? 0); eauto.
Qed.

(** [add] succeeds on an ELF object whose section names can be read, for
    strings that fit, when the name is in use or the string table can be
    extended. *)
Lemma add_returns elf m d ehdr :
  Z.of_nat (strlen m) <= 2 ^ 32 - 4 ->
  Z.of_nat (strlen d) <= 2 ^ 32 - 4 ->
  gelf_getehdr elf = Some ehdr ->
  Forall (fun s => section_name elf s <> None) (sections elf) ->
  ((forall s, In s (sections elf) -> ~ is_reference elf s) ->
   exists i strtab str_data rest,
     elf_getscn elf (e_shstrndx ehdr) = Some i
     /\ scn_at elf i = Some strtab
     /\ scn_data strtab = str_data :: rest
     /\ d_size str_data = Z.of_nat (length (default [] (d_buf str_data)))
     /\ d_size str_data < 2 ^ 32) ->
  exists elf', Cmd.add elf m d = Ok (EXIT_SUCCESS, elf').
Proof.
  intros Hm Hd He Hall Htab. unfold Cmd.add.
  rewrite add_note_layout by assumption. cbn [bind fst snd].
  set (elf0 := elf_flagelf (elf_flagelf elf ELF_F_LAYOUT) ELF_F_DIRTY).
  assert (He0 : gelf_getehdr elf0 = Some ehdr) by exact He.
  assert (Hall0 : Forall (fun s => section_name elf0 s <> None)
                         (sections elf0)) by exact Hall.
  assert (Hf : exists r, find_or_add_strtab_ref elf0 = Ok r).
  { unfold find_or_add_strtab_ref. rewrite He0. cbn [or_fatal bind].
    destruct (find_strtab_ref_total elf0 ehdr _ He0 Hall0) as [found Hfound].
    rewrite Hfound. cbn [bind]. destruct found as [off|]; [eauto|].
    pose proof (find_strtab_ref_inv elf0 ehdr _ _ He0 Hfound) as Hinv.
    cbv beta iota in Hinv. rewrite Forall_forall in Hinv.
    destruct Htab as (i & strtab & str_data & rest & Hi & Hs & Hdt & Hl & Hz).
    { intros s Hs. apply list_elem_of_In in Hs. now destruct (Hinv s Hs). }
    eexists. now apply (add_strtab_ref_ok elf0 ehdr i strtab str_data rest). }
  destruct Hf as [[name elf1] Hf]. rewrite Hf. cbn [bind fst snd].
  pose proof (find_or_add_is_elf _ _ _ Hf) as He1.
  rewrite add_ref_scn_ok by assumption. cbn [bind].
  unfold gelf_getehdr, gelf_update_ehdr, is_elf, with_scns in *.
  cbn [elf_kind]. destruct (elf_kind elf1); try discriminate.
  cbn [or_fatal bind elf_update]. eauto.
Qed.

Lemma add_last_offset_nonneg cursors : 0 <= add_last_offset cursors.
Proof. now destruct (fold_last_offset cursors 0) as [H _]. Qed.

Lemma add_last_offset_bound cursors s :
  In s cursors -> byte_bearing s -> scn_end s <= add_last_offset cursors.
Proof.
  intros Hin Hb. destruct (fold_last_offset cursors 0) as (_ & H & _).
  now apply H.
Qed.

Lemma scn_end_exact s :
  in_offset_space s ->
  scn_end s = sh_offset (scn_shdr s) + sh_size (scn_shdr s).
Proof.
  intros (Ho & Hs & Hlt). unfold scn_end, word64. apply Z.mod_small. lia.
Qed.

(** The new section begins where every byte-bearing section has ended. *)
Lemma reference_scn_clear cursors s buf bufsize name :
  In s cursors -> byte_bearing s -> in_offset_space s ->
  ~ intersects (reference_scn buf bufsize name (add_last_offset cursors)) s.
Proof.
  intros Hin Hb Hs (x & Hx & Hy). cbn in Hx.
  pose proof (add_last_offset_bound cursors s Hin Hb) as Hle.
  rewrite (scn_end_exact s Hs) in Hle. lia.
Qed.

Lemma intersects_sym s t : intersects s t -> intersects t s.
Proof. intros (x & Hx & Hy). exists x. now split. Qed.

Lemma no_overlap_snoc (l : list Elf_Scn) new :
  no_overlap l ->
  (forall s, In s l -> byte_bearing s -> ~ intersects new s) ->
  no_overlap (l ++ [new]).
Proof.
  intros Hl Hnew i j s t Hij Hi Hj Hbs Hbt.
  apply lookup_app_Some in Hi as [Hi|[Hil Hi]];
    apply lookup_app_Some in Hj as [Hj|[Hjl Hj]].
  - now apply (Hl i j).
  - apply list_lookup_singleton_Some in Hj as [_ <-].
    intros H. apply intersects_sym in H. revert H. apply Hnew; [|assumption].
    apply list_elem_of_In. eapply list_elem_of_lookup_2. eassumption.
  - apply list_lookup_singleton_Some in Hi as [_ <-].
    apply Hnew; [|assumption].
    apply list_elem_of_In. eapply list_elem_of_lookup_2. eassumption.
  - apply list_lookup_singleton_Some in Hi as [Hi _].
    apply list_lookup_singleton_Some in Hj as [Hj _]. lia.
Qed.

(** When the name is already in use, [add] touches nothing but the end of
    the table, and the invariant is kept. *)
Lemma add_keeps_no_overlap_with_reference elf m d status elf' :
  (exists s, In s (sections elf) /\ is_reference elf s) ->
  no_overlap (sections elf) ->
  Cmd.add elf m d = Ok (status, elf') ->
  (forall s, In s (sections elf') -> byte_bearing s -> in_offset_space s) ->
  no_overlap (sections elf').
Proof.
  intros Href Hno Hadd Hspace.
  destruct (add_inv _ _ _ _ _ Hadd)
    as (buf & bufsize & name & elf1 & _ & Hf & Hsec & _).
  apply find_or_add_found in Hf as [-> _]; [|exact Href].
  change (sections (elf_flagelf (elf_flagelf elf ELF_F_LAYOUT) ELF_F_DIRTY))
    with (sections elf) in Hsec.
  rewrite Hsec. apply no_overlap_snoc; [assumption|].
  intros s Hin Hb. apply reference_scn_clear; [assumption..|].
  apply Hspace; [|assumption]. rewrite Hsec. apply in_or_app. now left.
Qed.
End Writer.








(** C3 (the invariant under [add]).  In [elf_shstrtab_first] no two
    sections overlap: [.shstrtab] lies at [64, 83) and [.strtab] at
    [83, 84).  [add] finds no section named [.reference], extends
    [.shstrtab] where it lies, to [64, 94), and so over [.strtab]: the
    invariant does not hold afterwards. *)
Theorem add_grows_strtab_over_next_section :
  no_overlap (sections elf_shstrtab_first)
  /\ exists elf',
       Cmd.add elf_shstrtab_first (chars "text/plain") (chars "hello")
       = Ok (EXIT_SUCCESS, elf')
       /\ ~ no_overlap (sections elf').
Proof.
  split.
  - intros i j s t Hij Hi Hj _ _ (x & Hx & Hy).
    destruct i as [|[|i]], j as [|[|j]]; try discriminate; try congruence;
      injection Hi as <-; injection Hj as <-; cbn in Hx, Hy; lia.
  - eexists. split; [vm_compute; reflexivity|].
    intros H.
    refine (H 0%nat 1%nat _ _ _ eq_refl eq_refl _ _ _);
      [discriminate | discriminate | discriminate |].
    exists 83. cbn. lia.
Qed.

(** * The reference section reader *)

Section Reader.
Implicit Types (elf : Elf) (s : Elf_Scn) (out : stdout).

Lemma Decode_inv n name desc :
  Decode n = Ok (name, desc) -> note_desc n = Ok desc /\ note_name n = Ok name.
Proof.
  unfold Decode.
  destruct (note_desc n) as [desc'| |]; cbn [bind]; try discriminate.
  destruct (note_name n) as [name'| |]; cbn [bind]; try discriminate.
  intros [= <- <-]. now split.
Qed.

Lemma read_section_data_ok blocks out :
  Forall decodable blocks ->
  read_section_data blocks out = Ok (out ++ concat (map block_lines blocks)).
Proof.
  intros Hall. revert out.
  induction Hall as [|data blocks Hd _ IH]; intros out; cbn.
  - now rewrite app_nil_r.
  - unfold block_lines at 1. destruct (d_buf data) as [n|] eqn:En.
    + destruct (Hd n En) as [[name desc] Hdec].
      unfold record_line. rewrite Hdec.
      apply Decode_inv in Hdec as [-> ->]. cbn [bind].
      rewrite IH. unfold printf_ref. now rewrite <- !app_assoc.
    + apply IH.
Qed.

Lemma read_section_ok elf s out :
  section_name elf s <> None ->
  (is_reference elf s -> Forall decodable (scn_data s)) ->
  read_section elf s out = Ok (true, out ++ section_lines elf s).
Proof.
  intros Hname Hdec. unfold read_section, section_lines.
  destruct (gelf_getehdr elf) as [ehdr|] eqn:He.
  2:{ exfalso. apply Hname. unfold section_name. now rewrite He. }
  unfold gelf_getshdr. unfold is_reference in *.
  rewrite (section_name_ehdr elf ehdr s He) in *.
  destruct (elf_strptr elf (e_shstrndx ehdr) (sh_name (scn_shdr s)))
    as [name|] eqn:En; [|contradiction].
  pose proof (strcmp_reference elf _ _ _ En) as Hcmp.
  destruct (strcmp name REFERENCE_SECTION_NAME =? 0).
  - assert (Hn : name = REFERENCE_SECTION_NAME) by now apply Hcmp.
    subst name. cbn [negb].
    rewrite read_section_data_ok by now apply Hdec.
    cbn [bind]. unfold is_reference_dec.
    rewrite (section_name_ehdr elf ehdr s He), En.
    destruct (decide _) as [_|Hne]; [reflexivity | contradiction].
  - cbn [negb]. unfold is_reference_dec.
    rewrite (section_name_ehdr elf ehdr s He), En.
    destruct (decide _) as [Heq|_]; [|now rewrite app_nil_r].
    injection Heq as Heq. apply Hcmp in Heq. discriminate.
Qed.

Lemma list_sections_ok elf cursors out :
  Forall (fun s => section_name elf s <> None) cursors ->
  (forall s, In s cursors -> is_reference elf s ->
             Forall decodable (scn_data s)) ->
  list_sections elf cursors out
  = Ok (out ++ concat (map (section_lines elf) cursors)).
Proof.
  intros Hall. revert out.
  induction Hall as [|c cursors Hc _ IH]; intros out Hdec; cbn.
  - now rewrite app_nil_r.
  - rewrite read_section_ok; [|assumption|].
    + cbn [bind fst snd]. rewrite IH.
      * now rewrite <- app_assoc.
      * intros s Hs. apply Hdec. now right.
    + apply Hdec. now left.
Qed.
End Reader.

(** C9 (listing).  [list] goes through the sections in table order.  A
    section whose name is not [.reference] adds nothing to the output and is
    no error; for a section named [.reference] every data block, in order,
    adds the line [data (mediaType)] decoded from it, and a null block adds
    nothing. *)
Theorem list_prints_references (elf : Elf) :
  Forall (fun s => section_name elf s <> None) (sections elf) ->
  (forall s, In s (sections elf) -> is_reference elf s ->
             Forall decodable (scn_data s)) ->
  Cmd.list elf = Ok (EXIT_SUCCESS, ListReferences elf)
  /\ ListReferences elf
     = concat (map (fun s => if decide (is_reference elf s)
                             then concat (map block_lines (scn_data s))
                             else [])
                   (sections elf))
  /\ (forall data, d_buf data = None -> block_lines data = [])
  /\ (forall data n mediatype desc,
        d_buf data = Some n -> Decode n = Ok (mediatype, desc) ->
        block_lines data
        = desc ++ chars " (" ++ mediatype ++ chars ")" ++ [x0a]).
Proof.
  intros Hall Hdec. split; [|split; [reflexivity|split]].
  - unfold Cmd.list. now rewrite list_sections_ok.
  - intros data Hnull. unfold block_lines. now rewrite Hnull.
  - intros data n mediatype desc Hn Hd. unfold block_lines, record_line.
    now rewrite Hn, Hd.
Qed.

Lemma list_prints_references_witness :
  Cmd.list elf_one_reference
  = Ok (EXIT_SUCCESS, chars "hello (text/plain)" ++ [x0a]).
Proof.
  destruct (list_prints_references elf_one_reference) as (Hlist & _).
  - repeat constructor; discriminate.
  - intros s [<-|[<-|[<-|[]]]] Href;
      try (vm_compute in Href; discriminate Href).
    repeat constructor. intros n [= <-]. eexists. vm_compute. reflexivity.
  - rewrite Hlist. vm_compute. reflexivity.
Defined.

(** * Further properties of the note codec *)

Section NoteStrings.
Implicit Types (m d : list byte).

Lemma cstr_unterminated s : no_nul s -> cstr s = None.
Proof.
  induction 1 as [|c s Hc _ IH]; cbn; [reflexivity|].
  destruct (Byte.eqb c x00) eqn:E.
  - apply Byte.byte_dec_bl in E. contradiction.
  - now rewrite IH.
Qed.

Lemma no_nul_app s t : no_nul s -> no_nul t -> no_nul (s ++ t).
Proof. intros Hs Ht. apply Forall_app. now split. Qed.

Lemma round_up_4_multiple n : 0 <= n -> n mod 4 = 0 -> round_up n 4 = n.
Proof.
  intros Hn Hm. unfold round_up.
  pose proof (Z.div_mod n 4 ltac:(lia)) as Hq. rewrite Hm in Hq.
  replace (n + 4 - 1) with (3 + (n / 4) * 4) by lia.
  rewrite Z.div_add by lia. change (3 / 4) with 0. lia.
Qed.

Lemma add_note_not_fatal m d msg : add_note m d <> Fatal msg.
Proof.
  unfold add_note.
  destruct (store_word _ off_namesz _) as [b1|]; cbn [in_bounds bind];
    [|discriminate].
  destruct (store_word b1 off_descsz _) as [b2|]; cbn [in_bounds bind];
    [|discriminate].
  destruct (load_word b2 off_namesz) as [namesz|]; cbn [in_bounds bind];
    [|discriminate].
  destruct (memcpy b2 _ d _) as [b3|]; cbn [in_bounds bind]; [|discriminate].
  destruct (memcpy b3 _ m _) as [b4|]; cbn [in_bounds bind]; discriminate.
Qed.

(** The two strings read from a record in which [km] and [kd] zero bytes
    follow the media type and the data. *)
Lemma laid_out_strings m d (km kd : nat) descsz :
  Z.of_nat (length m + km) < 2 ^ 32 ->
  let n := bytes_of_word (Z.of_nat (length m + km)) ++ bytes_of_word descsz
             ++ bytes_of_word 0
             ++ (m ++ replicate km x00) ++ d ++ replicate kd x00 in
  note_name n = in_bounds (cstr (m ++ replicate km x00 ++ d ++ replicate kd x00))
  /\ note_desc n = in_bounds (cstr (d ++ replicate kd x00)).
Proof.
  intros Hsz n. subst n.
  set (namesz := Z.of_nat (length m + km)).
  set (hdr := bytes_of_word namesz ++ bytes_of_word descsz ++ bytes_of_word 0).
  set (pm := replicate km x00). set (pd := replicate kd x00).
  assert (Lh : length hdr = 12%nat) by reflexivity.
  assert (Lpm : length pm = km) by apply length_replicate.
  replace (bytes_of_word namesz ++ bytes_of_word descsz ++ bytes_of_word 0
             ++ (m ++ pm) ++ d ++ pd)
    with (hdr ++ (m ++ pm) ++ d ++ pd)
    by (subst hdr; now rewrite <- !app_assoc).
  split.
  - unfold note_name, cstr_at, off_buf. rewrite !length_app, Lh.
    replace ((0 <=? 12)
             && (12 <=? Z.of_nat (12 + (length m + length pm
                                        + (length d + length pd)))))
      with true
      by (symmetry; rewrite andb_true_iff; split; apply Z.leb_le; lia).
    change (Z.to_nat 12) with (length hdr). rewrite drop_app_length.
    now rewrite <- !app_assoc.
  - unfold note_desc, load_word, off_namesz.
    subst hdr. rewrite <- !app_assoc.
    rewrite (load_head (bytes_of_word namesz) _ 4) by reflexivity.
    cbn [option_map bind in_bounds].
    rewrite word_of_bytes_of_word by (subst namesz; lia).
    set (hdr := bytes_of_word namesz ++ bytes_of_word descsz
                  ++ bytes_of_word 0).
    replace (bytes_of_word namesz ++ bytes_of_word descsz ++ bytes_of_word 0
               ++ m ++ pm ++ d ++ pd)
      with ((hdr ++ m ++ pm) ++ d ++ pd)
      by (subst hdr; now rewrite <- !app_assoc).
    unfold cstr_at, off_buf.
    assert (Lp : length (hdr ++ m ++ pm) = Z.to_nat (12 + namesz)).
    { rewrite !length_app, Lpm. change (length hdr) with 12%nat.
      subst namesz. lia. }
    replace ((0 <=? 12 + namesz)
             && (12 + namesz
                 <=? Z.of_nat (length ((hdr ++ m ++ pm) ++ d ++ pd))))
      with true
      by (symmetry; rewrite andb_true_iff, length_app; split;
          apply Z.leb_le; subst namesz; lia).
    rewrite <- Lp, drop_app_length. reflexivity.
Qed.

(** The record [add] builds for two strings without NUL. *)
Lemma add_note_padded m d :
  no_nul m -> no_nul d ->
  Z.of_nat (length m) <= 2 ^ 32 - 4 ->
  Z.of_nat (length d) <= 2 ^ 32 - 4 ->
  exists km kd descsz,
    Z.of_nat (length m + km) < 2 ^ 32
    /\ (km = 0%nat <-> Z.of_nat (length m) mod 4 = 0)
    /\ (kd = 0%nat <-> Z.of_nat (length d) mod 4 = 0)
    /\ Encode m d
       = Ok (bytes_of_word (Z.of_nat (length m + km)) ++ bytes_of_word descsz
               ++ bytes_of_word 0
               ++ (m ++ replicate km x00) ++ d ++ replicate kd x00).
Proof.
  intros Hm Hd Blm Bld.
  pose proof (strlen_no_nul m Hm) as Lm.
  pose proof (strlen_no_nul d Hd) as Ld.
  pose proof (round_up_4_bounds (Z.of_nat (length m)) ltac:(lia)) as [Hnm Hmm].
  pose proof (round_up_4_bounds (Z.of_nat (length d)) ltac:(lia)) as [Hnd Hdm].
  exists (Z.to_nat (round_up (Z.of_nat (length m)) 4) - length m)%nat,
    (Z.to_nat (round_up (Z.of_nat (length d)) 4) - length d)%nat,
    (round_up (Z.of_nat (length d)) 4).
  split; [lia|]. split; [|split].
  - split; intros H.
    + assert (E : round_up (Z.of_nat (length m)) 4 = Z.of_nat (length m))
        by lia.
      now rewrite <- E.
    + rewrite round_up_4_multiple by (assumption || lia). lia.
  - split; intros H.
    + assert (E : round_up (Z.of_nat (length d)) 4 = Z.of_nat (length d))
        by lia.
      now rewrite <- E.
    + rewrite round_up_4_multiple by (assumption || lia). lia.
  - unfold Encode. rewrite add_note_layout by (rewrite ?Lm, ?Ld; lia).
    rewrite Lm, Ld, !firstn_all. cbn [bind fst].
    replace (Z.of_nat (length m
                       + (Z.to_nat (round_up (Z.of_nat (length m)) 4)
                          - length m)))
      with (round_up (Z.of_nat (length m)) 4) by lia.
    reflexivity.
Qed.
End NoteStrings.

(** X1.  [add] builds a record exactly when [calloc] returns a buffer and
    the length of each string is at most [2 ^ 32 - 4], so that its padded
    length fits a [GElf_Word].  When [calloc] returns null it stops with
    the message "malloc".  When [calloc] returns a buffer and a string is
    longer, one of the two copies runs past the end of the buffer. *)
Theorem add_note_defined (granted : bool) (m d : list byte) :
  ((exists note, add_note_alloc granted m d = Ok note)
   <-> granted = true
       /\ Z.of_nat (strlen m) <= 2 ^ 32 - 4
       /\ Z.of_nat (strlen d) <= 2 ^ 32 - 4)
  /\ (granted = false -> add_note_alloc granted m d = Fatal "malloc")
  /\ (granted = true ->
      ~ (Z.of_nat (strlen m) <= 2 ^ 32 - 4
         /\ Z.of_nat (strlen d) <= 2 ^ 32 - 4) ->
      add_note_alloc granted m d = Undefined).
Proof.
  unfold add_note_alloc, calloc_or_null.
  destruct granted; cbn [or_fatal bind].
  - split; [|split; [discriminate|]].
    + split.
      * intros [note H]. split; [reflexivity|].
        eapply add_note_returns. eassumption.
      * intros (_ & Hm & Hd). eexists. now apply add_note_layout.
    + intros _ Hnot. destruct (add_note m d) as [note|msg|] eqn:E.
      * exfalso. apply Hnot. eapply add_note_returns. eassumption.
      * now destruct (add_note_not_fatal m d msg).
      * reflexivity.
  - split; [|split; [reflexivity | discriminate]].
    split; [intros [note H]; discriminate | intros (H & _); discriminate].
Qed.

(** X2.  What [read_section] reads back from the record [add] builds for
    two strings without NUL.  When the length of the data is a multiple
    of 4 nothing ends the data inside the record and the read runs past its
    end.  Otherwise the data is read back as it is, and the media type is
    read back as it is unless its length is a multiple of 4, in which case
    the data follows it in the string read. *)
Theorem decode_of_encode (m d : list byte) :
  no_nul m -> no_nul d ->
  Z.of_nat (length m) <= 2 ^ 32 - 4 ->
  Z.of_nat (length d) <= 2 ^ 32 - 4 ->
  (n <- Encode m d ;; Decode n)
  = if Z.of_nat (length d) mod 4 =? 0 then Undefined
    else if Z.of_nat (length m) mod 4 =? 0 then Ok (m ++ d, d)
         else Ok (m, d).
Proof.
  intros Hm Hd Blm Bld.
  destruct (add_note_padded m d Hm Hd Blm Bld)
    as (km & kd & descsz & Hsz & Hkm & Hkd & ->).
  cbn [bind]. unfold Decode.
  destruct (laid_out_strings m d km kd descsz Hsz) as [-> ->].
  destruct (Z.eqb_spec (Z.of_nat (length d) mod 4) 0) as [Ed|Ed].
  - apply Hkd in Ed. subst kd. cbn [replicate]. rewrite app_nil_r.
    now rewrite (cstr_unterminated d Hd).
  - destruct kd as [|kd]; [now destruct Ed; apply Hkd|].
    cbn [replicate]. rewrite (cstr_app_nul d _ Hd). cbn [in_bounds bind].
    destruct (Z.eqb_spec (Z.of_nat (length m) mod 4) 0) as [Em|Em].
    + apply Hkm in Em. subst km. cbn [replicate app].
      rewrite app_assoc, cstr_app_nul by now apply no_nul_app.
      reflexivity.
    + destruct km as [|km]; [now destruct Em; apply Hkm|].
      cbn [replicate app]. now rewrite (cstr_app_nul m _ Hm).
Qed.

Lemma decode_of_encode_witness :
  (n <- Encode (chars "text") (chars "hello") ;; Decode n)
  = Ok (chars "texthello", chars "hello")
  /\ (n <- Encode (chars "text/plain") (chars "data") ;; Decode n) = Undefined.
Proof.
  split.
  - rewrite (decode_of_encode (chars "text") (chars "hello")).
    + reflexivity.
    + repeat constructor; discriminate.
    + repeat constructor; discriminate.
    + vm_compute. discriminate.
    + vm_compute. discriminate.
  - rewrite (decode_of_encode (chars "text/plain") (chars "data")).
    + reflexivity.
    + repeat constructor; discriminate.
    + repeat constructor; discriminate.
    + vm_compute. discriminate.
    + vm_compute. discriminate.
Defined.

(** * Further properties of the layout planner *)

Section ScanOrder.
Implicit Types (s : Elf_Scn) (l : list Elf_Scn).

(** What one section contributes to the scan. *)
Lemma fold_last_offset_max l acc :
  0 <= acc ->
  fold_left last_offset_step l acc
  = Z.max acc (fold_left last_offset_step l 0).
Proof.
  revert acc. induction l as [|c l IH]; intros acc Hacc; cbn [fold_left].
  - lia.
  - pose proof (scn_end_nonneg c) as He.
    rewrite (IH (last_offset_step acc c)), (IH (last_offset_step 0 c));
      rewrite ?last_offset_step_spec;
      destruct (negb (sh_type (scn_shdr c) =? SHT_NOBITS)); lia.
Qed.

Lemma add_last_offset_cons s l :
  add_last_offset (s :: l)
  = Z.max (if negb (sh_type (scn_shdr s) =? SHT_NOBITS) then scn_end s else 0)
          (add_last_offset l).
Proof.
  unfold add_last_offset. cbn [fold_left].
  pose proof (scn_end_nonneg s) as He.
  rewrite fold_last_offset_max;
    rewrite last_offset_step_spec;
    destruct (negb (sh_type (scn_shdr s) =? SHT_NOBITS)); lia.
Qed.

Lemma add_last_offset_filter l :
  add_last_offset (filter byte_bearing l) = add_last_offset l.
Proof.
  induction l as [|s l IH]; [reflexivity|].
  rewrite filter_cons. destruct (decide (byte_bearing s)) as [Hb|Hb].
  - now rewrite !add_last_offset_cons, IH.
  - rewrite add_last_offset_cons, IH.
    destruct (negb (sh_type (scn_shdr s) =? SHT_NOBITS)) eqn:E.
    + apply byte_bearing_dec in E. contradiction.
    + pose proof (add_last_offset_nonneg l). lia.
Qed.

Lemma add_last_offset_perm l l' :
  Permutation l l' -> add_last_offset l = add_last_offset l'.
Proof.
  induction 1 as [|s l l' _ IH|s t l|l1 l2 l3 _ IH1 _ IH2].
  - reflexivity.
  - now rewrite !add_last_offset_cons, IH.
  - rewrite !add_last_offset_cons. lia.
  - congruence.
Qed.
End ScanOrder.

(** X3.  The offset the scan of [add] ends with depends only on which
    sections occupy file bytes, not on their order in the table: two
    tables with the same byte-bearing sections, in any order and with any
    [SHT_NOBITS] sections among them, give the same offset. *)
Theorem last_offset_order_independent (l l' : list Elf_Scn) :
  Permutation (filter byte_bearing l) (filter byte_bearing l') ->
  add_last_offset l = add_last_offset l'.
Proof.
  intros Hp.
  rewrite <- (add_last_offset_filter l), <- (add_last_offset_filter l').
  now apply add_last_offset_perm.
Qed.

Lemma last_offset_order_independent_witness :
  add_last_offset
    [ strtab_scn 11 64 [x00];
      mkScn (mkShdr 0 SHT_NOBITS 0 0 100 50 0 0 1 0) 0 [] 0;
      strtab_scn 1 65 (chars ".shstrtab") ]
  = add_last_offset
      [ strtab_scn 1 65 (chars ".shstrtab"); strtab_scn 11 64 [x00] ].
Proof.
  apply last_offset_order_independent.
  vm_compute. apply perm_swap.
Defined.

(** * Further properties of the reader *)

Section ReaderOutcomes.
Implicit Types (elf : Elf) (s : Elf_Scn) (out : stdout).

Lemma Decode_strings n :
  Decode n = (desc <- note_desc n ;; name <- note_name n ;; Ok (name, desc)).
Proof. reflexivity. Qed.

Lemma note_desc_not_fatal n msg : note_desc n <> Fatal msg.
Proof.
  unfold note_desc. destruct (load_word n off_namesz); cbn [in_bounds bind];
    [|discriminate].
  destruct (cstr_at n _); discriminate.
Qed.

Lemma note_name_not_fatal n msg : note_name n <> Fatal msg.
Proof. unfold note_name. destruct (cstr_at n _); discriminate. Qed.

(** The loop over the data blocks ends normally exactly on blocks that can
    be decoded; it never ends with a diagnostic. *)
Lemma read_section_data_outcome blocks out :
  match read_section_data blocks out with
  | Ok _ => Forall decodable blocks
  | Fatal _ => False
  | Undefined => exists data, In data blocks /\ ~ decodable data
  end.
Proof.
  revert out. induction blocks as [|data blocks IH]; intros out; cbn.
  - constructor.
  - destruct (d_buf data) as [n|] eqn:En.
    + destruct (note_desc n) as [desc|msg|] eqn:Ed; cbn [bind].
      * destruct (note_name n) as [name|msg|] eqn:Em; cbn [bind].
        -- specialize (IH (out ++ printf_ref desc name)).
           destruct (read_section_data blocks _).
           ++ constructor; [|exact IH].
              intros n' Hn'. rewrite En in Hn'. injection Hn' as <-.
              exists (name, desc). unfold Decode. now rewrite Ed, Em.
           ++ exact IH.
           ++ destruct IH as (data' & Hin & Hnd). exists data'.
              split; [now right | exact Hnd].
        -- now destruct (note_name_not_fatal n msg).
        -- exists data. split; [now left|].
           intros Hd. destruct (Hd n En) as [pair Hp].
           unfold Decode in Hp. rewrite Ed, Em in Hp. discriminate.
      * now destruct (note_desc_not_fatal n msg).
      * exists data. split; [now left|].
        intros Hd. destruct (Hd n En) as [pair Hp].
        unfold Decode in Hp. rewrite Ed in Hp. discriminate.
    + specialize (IH out). destruct (read_section_data blocks out).
      * constructor; [|exact IH]. intros n Hn. congruence.
      * exact IH.
      * destruct IH as (data' & Hin & Hnd). exists data'.
        split; [now right | exact Hnd].
Qed.

(** The three ways [read_section] treats a section. *)
Lemma read_section_cases elf s out :
  (section_name elf s = None /\ read_section elf s out = Ok (false, out))
  \/ (section_name elf s <> None /\ ~ is_reference elf s
      /\ read_section elf s out = Ok (true, out))
  \/ (is_reference elf s
      /\ read_section elf s out
         = (o <- read_section_data (scn_data s) out ;; Ok (true, o))).
Proof.
  unfold read_section, is_reference, section_name.
  destruct (gelf_getehdr elf) as [ehdr|] eqn:He; cbn; [|now left].
  unfold gelf_getshdr.
  destruct (elf_strptr elf (e_shstrndx ehdr) (sh_name (scn_shdr s)))
    as [name|] eqn:En; [|now left].
  pose proof (strcmp_reference elf _ _ _ En) as Hcmp.
  destruct (strcmp name REFERENCE_SECTION_NAME =? 0); cbn [negb].
  - right. right. split; [|reflexivity]. f_equal. now apply Hcmp.
  - right. left. split; [discriminate|]. split; [|reflexivity].
    intros [= Hn]. apply Hcmp in Hn. discriminate.
Qed.

Lemma list_sections_outcome elf cursors out :
  match list_sections elf cursors out with
  | Ok _ =>
      Forall (fun s => section_name elf s <> None) cursors
      /\ (forall s, In s cursors -> is_reference elf s ->
                    Forall decodable (scn_data s))
  | Fatal msg =>
      msg = "reading section"%string
      /\ exists s, In s cursors /\ section_name elf s = None
  | Undefined =>
      exists s data, In s cursors /\ is_reference elf s
                     /\ In data (scn_data s) /\ ~ decodable data
  end.
Proof.
  revert out. induction cursors as [|c cursors IH]; intros out;
    cbn [list_sections].
  - split; [constructor | intros s []].
  - destruct (read_section_cases elf c out)
      as [[Hn ->]|[(Hn & Hr & ->)|[Hr ->]]]; cbn [bind fst snd].
    + split; [reflexivity|]. exists c. split; [now left | exact Hn].
    + specialize (IH out). destruct (list_sections elf cursors out).
      * destruct IH as [Hall Hdec]. split; [now constructor|].
        intros s [<-|Hs] Href; [contradiction | now apply Hdec].
      * destruct IH as [-> (s & Hs & Hnone)]. split; [reflexivity|].
        exists s. split; [now right | exact Hnone].
      * destruct IH as (s & data & Hs & H). exists s, data.
        split; [now right | exact H].
    + pose proof (read_section_data_outcome (scn_data c) out) as Hd.
      destruct (read_section_data (scn_data c) out) as [o|msg|];
        cbn [bind fst snd].
      * specialize (IH o). destruct (list_sections elf cursors o).
        -- destruct IH as [Hall Hdec]. split.
           ++ constructor; [|exact Hall]. unfold is_reference in Hr.
              rewrite Hr. discriminate.
           ++ intros s [<-|Hs] Href; [exact Hd | now apply Hdec].
        -- destruct IH as [-> (s & Hs & Hnone)]. split; [reflexivity|].
           exists s. split; [now right | exact Hnone].
        -- destruct IH as (s & data & Hs & H). exists s, data.
           split; [now right | exact H].
      * destruct Hd.
      * destruct Hd as (data & Hin & Hnd). exists c, data.
        split; [now left|]. split; [exact Hr|]. now split.
Qed.
End ReaderOutcomes.

(** X4.  The ways [list] ends.  When it returns, the status is
    [EXIT_SUCCESS], every section name could be read and the output is one
    line per data block of the sections named [.reference].  It aborts only
    with "reading section", and only when the name of some section cannot be
    read.  It reads outside a buffer only when a section named [.reference]
    holds a record in which a string is not terminated. *)
Theorem list_outcome (elf : Elf) :
  (forall r, Cmd.list elf = Ok r ->
             r = (EXIT_SUCCESS, ListReferences elf)
             /\ Forall (fun s => section_name elf s <> None) (sections elf))
  /\ (forall msg, Cmd.list elf = Fatal msg ->
                  msg = "reading section"%string
                  /\ exists s, In s (sections elf)
                               /\ section_name elf s = None)
  /\ (Cmd.list elf = Undefined ->
      exists s data, In s (sections elf) /\ is_reference elf s
                     /\ In data (scn_data s) /\ ~ decodable data).
Proof.
  pose proof (list_sections_outcome elf (sections elf) []) as H.
  unfold Cmd.list.
  destruct (list_sections elf (sections elf) []) as [out|msg|] eqn:E;
    cbn [bind].
  - destruct H as [Hall Hdec].
    rewrite (list_sections_ok elf _ [] Hall Hdec) in E.
    injection E as <-.
    split; [|split; [intros msg' [=] | intros [=]]].
    intros r [= <-]. now split.
  - destruct H as [-> Hs].
    split; [intros r [=]|split; [|intros [=]]].
    intros msg' [= <-]. now split.
  - split; [intros r [=]|split; [intros msg' [=]|]].
    intros _. exact H.
Qed.

(** * Further properties of the string table manager *)

Section StringTableNames.
Implicit Types (elf : Elf) (s : Elf_Scn).

Lemma cstr_app_stable mem ext name :
  cstr mem = Some name -> cstr (mem ++ ext) = Some name.
Proof.
  revert name. induction mem as [|c mem IH]; intros name; cbn;
    [discriminate|].
  destruct (Byte.eqb c x00); [trivial|].
  destruct (cstr mem) as [t|]; cbn; [|discriminate].
  intros [= <-]. now rewrite (IH t).
Qed.

Lemma cstr_at_app_stable buf ext off name :
  cstr_at buf off = Some name -> cstr_at (buf ++ ext) off = Some name.
Proof.
  unfold cstr_at. destruct (_ && _) eqn:E; [|discriminate].
  apply andb_true_iff in E as [Ho Hl].
  apply Z.leb_le in Ho. apply Z.leb_le in Hl.
  replace ((0 <=? off) && (off <=? Z.of_nat (length (buf ++ ext))))
    with true
    by (symmetry; rewrite andb_true_iff, length_app; split;
        apply Z.leb_le; lia).
  rewrite drop_app_le by lia. apply cstr_app_stable.
Qed.

Lemma elf_getscn_is_elf elf idx i :
  elf_getscn elf idx = Some i ->
  is_elf elf = true /\ i = Z.to_nat idx /\ 0 <= idx
  /\ (i < length (elf_scns elf))%nat.
Proof.
  unfold elf_getscn. destruct (is_elf elf); [|discriminate]. cbn [andb].
  destruct (0 <=? idx) eqn:E0; [|discriminate]. cbn [andb].
  destruct (idx <? _) eqn:E1; [|discriminate].
  apply Z.leb_le in E0. apply Z.ltb_lt in E1.
  intros [= <-]. repeat split; lia.
Qed.

Lemma elf_getscn_insert elf i x idx :
  elf_getscn (with_scns elf (<[i := x]> (elf_scns elf))) idx
  = elf_getscn elf idx.
Proof.
  unfold elf_getscn, is_elf, with_scns. cbn [elf_kind elf_scns].
  now rewrite length_insert.
Qed.

(** Strings that could be read before the table was extended read the
    same afterwards. *)
Lemma elf_strptr_extended elf i strtab str_data buf idx offset name :
  scn_at elf i = Some strtab ->
  scn_data strtab = [str_data] ->
  d_buf str_data = Some buf ->
  d_off str_data = 0 ->
  d_size str_data = Z.of_nat (length buf) ->
  elf_strptr elf idx offset = Some name ->
  elf_strptr
    (with_scns elf
       (<[i := extended strtab str_data [] REFERENCE_SECTION_NAME]>
          (elf_scns elf))) idx offset
  = Some name.
Proof.
  intros Hs Hd Hb Ho Hl. unfold elf_strptr.
  rewrite elf_getscn_insert.
  destruct (elf_getscn elf idx) as [j|] eqn:Ej; cbn [mbind option_bind];
    [|discriminate].
  unfold scn_at in *. unfold with_scns. cbn [elf_scns].
  destruct (decide (j = i)) as [->|Hne].
  2:{ now rewrite list_lookup_insert_ne by congruence. }
  rewrite list_lookup_insert_eq by (eapply lookup_lt_Some; eassumption).
  rewrite Hs. cbn [mbind option_bind].
  cbn [extended scn_shdr sh_type sh_size scn_data].
  destruct (negb (sh_type (scn_shdr strtab) =? SHT_STRTAB)); [trivial|].
  destruct (sh_size (scn_shdr strtab) <=? offset); [discriminate|].
  rewrite Hd. cbn [find d_off d_size].
  destruct ((d_off str_data <=? offset)
            && (offset <? d_off str_data + d_size str_data)) eqn:Ec;
    cbn [mbind option_bind]; [|discriminate].
  apply andb_true_iff in Ec as [Ec0 Ec1].
  apply Z.leb_le in Ec0. apply Z.ltb_lt in Ec1.
  rewrite Hb. cbn [mbind option_bind d_buf default].
  change (Z.of_nat (length REFERENCE_SECTION_NAME)) with 10.
  replace (d_size str_data + 10 + 1 <=? offset) with false
    by (symmetry; apply Z.leb_gt; lia).
  replace ((d_off str_data <=? offset)
           && (offset <? d_off str_data + (d_size str_data + 10 + 1)))
    with true
    by (symmetry; rewrite andb_true_iff; split;
        [apply Z.leb_le | apply Z.ltb_lt]; lia).
  cbn [mbind option_bind d_buf d_size d_off]. change (id buf) with buf.
  rewrite (firstn_all2 buf) by lia.
  rewrite (firstn_all2 (buf ++ REFERENCE_SECTION_NAME ++ [x00]))
    by (rewrite !length_app; cbn [length];
        change (length REFERENCE_SECTION_NAME) with 10%nat; lia).
  apply cstr_at_app_stable.
Qed.

(** The offset returned for the new entry designates the reserved name. *)
Lemma elf_strptr_new_entry elf i strtab str_data buf :
  elf_getscn elf (e_shstrndx (elf_ehdr elf)) = Some i ->
  scn_at elf i = Some strtab ->
  sh_type (scn_shdr strtab) = SHT_STRTAB ->
  scn_data strtab = [str_data] ->
  d_buf str_data = Some buf ->
  d_off str_data = 0 ->
  d_size str_data = Z.of_nat (length buf) ->
  elf_strptr
    (with_scns elf
       (<[i := extended strtab str_data [] REFERENCE_SECTION_NAME]>
          (elf_scns elf)))
    (e_shstrndx (elf_ehdr elf)) (d_size str_data)
  = Some REFERENCE_SECTION_NAME.
Proof.
  intros Hi Hs Ht Hd Hb Ho Hl. unfold elf_strptr.
  rewrite elf_getscn_insert, Hi. cbn [mbind option_bind].
  unfold scn_at in *. unfold with_scns. cbn [elf_scns].
  rewrite list_lookup_insert_eq by (eapply lookup_lt_Some; eassumption).
  cbn [mbind option_bind extended scn_shdr sh_type sh_size scn_data find
       d_off d_size d_buf default].
  rewrite Ht, Hb, Ho. cbn [Z.eqb negb Pos.eqb SHT_STRTAB].
  change (Z.of_nat (length REFERENCE_SECTION_NAME)) with 10.
  replace (d_size str_data + 10 + 1 <=? d_size str_data) with false
    by (symmetry; apply Z.leb_gt; lia).
  replace ((0 <=? d_size str_data)
           && (d_size str_data <? 0 + (d_size str_data + 10 + 1)))
    with true
    by (symmetry; rewrite andb_true_iff; split;
        [apply Z.leb_le | apply Z.ltb_lt]; lia).
  change (default [] (Some buf)) with buf.
  cbn [mbind option_bind d_buf d_size d_off].
  rewrite firstn_all2
    by (rewrite !length_app; cbn [length];
        change (length REFERENCE_SECTION_NAME) with 10%nat; lia).
  unfold cstr_at.
  replace ((0 <=? d_size str_data - 0)
           && (d_size str_data - 0
               <=? Z.of_nat (length (buf ++ REFERENCE_SECTION_NAME ++ [x00]))))
    with true
    by (symmetry; rewrite andb_true_iff, !length_app; split;
        apply Z.leb_le; lia).
  replace (Z.to_nat (d_size str_data - 0)) with (length buf) by lia.
  rewrite drop_app_length. apply cstr_app_nul, REFERENCE_no_nul.
Qed.

(** The two ways a call returns on a string table as read from a file. *)
Lemma find_or_add_cases elf off elf1 :
  shstrtab_as_read elf ->
  find_or_add_strtab_ref elf = Ok (off, elf1) ->
  (elf1 = elf
   /\ exists s, In s (sections elf) /\ is_reference elf s
                /\ off = sh_name (scn_shdr s))
  \/ (exists i strtab str_data buf,
        elf_getscn elf (e_shstrndx (elf_ehdr elf)) = Some i
        /\ scn_at elf i = Some strtab
        /\ sh_type (scn_shdr strtab) = SHT_STRTAB
        /\ scn_data strtab = [str_data]
        /\ d_buf str_data = Some buf
        /\ d_off str_data = 0
        /\ d_size str_data = Z.of_nat (length buf)
        /\ Forall (fun s => section_name elf s <> None
                            /\ ~ is_reference elf s) (sections elf)
        /\ off = d_size str_data
        /\ elf1 = with_scns elf
                    (<[i := extended strtab str_data []
                              REFERENCE_SECTION_NAME]> (elf_scns elf))).
Proof.
  intros (i & strtab & str_data & buf & Hi & Hs & Ht & Hd & Hb & Ho & Hl & Hz)
         Hcall.
  destruct (elf_getscn_is_elf _ _ _ Hi) as (He & _).
  assert (Hehdr : gelf_getehdr elf = Some (elf_ehdr elf))
    by (unfold gelf_getehdr; now rewrite He).
  unfold find_or_add_strtab_ref in Hcall. rewrite Hehdr in Hcall.
  cbn [or_fatal bind] in Hcall.
  destruct (find_strtab_ref elf (elf_ehdr elf) (sections elf))
    as [found| |] eqn:Ef; cbn [bind] in Hcall; try discriminate.
  pose proof (find_strtab_ref_inv elf _ _ _ Hehdr Ef) as Hinv.
  destruct found as [off'|].
  - injection Hcall as <- <-. left. now split.
  - right. exists i, strtab, str_data, buf.
    rewrite (add_strtab_ref_ok elf (elf_ehdr elf) i strtab str_data [])
      in Hcall; [|assumption..|rewrite Hb; exact Hl|assumption].
    injection Hcall as <- <-. repeat split; assumption.
Qed.
End StringTableNames.

(** X5.  [find_or_add_strtab_ref] relocates no name: on a string table as
    read from a file, every string that [elf_strptr] could read before a
    returning call is read at the same offset after it, so every section
    keeps the name it had. *)
Theorem find_or_add_keeps_names (elf : Elf) (off : Z) (elf1 : Elf) :
  shstrtab_as_read elf ->
  find_or_add_strtab_ref elf = Ok (off, elf1) ->
  (forall idx offset name,
      elf_strptr elf idx offset = Some name ->
      elf_strptr elf1 idx offset = Some name)
  /\ (forall s name,
        section_name elf s = Some name -> section_name elf1 s = Some name).
Proof.
  intros Hwf Hcall.
  assert (Hptr : forall idx offset name,
             elf_strptr elf idx offset = Some name ->
             elf_strptr elf1 idx offset = Some name).
  { destruct (find_or_add_cases elf off elf1 Hwf Hcall)
      as [[-> _]|(i & strtab & str_data & buf & Hi & Hs & Ht & Hd & Hb & Ho
                  & Hl & _ & _ & ->)]; [trivial|].
    intros idx offset name. now apply elf_strptr_extended with (buf := buf). }
  split; [exact Hptr|].
  intros s name. unfold section_name, gelf_getehdr.
  pose proof (find_or_add_is_elf elf off elf1 Hcall) as He1.
  assert (He : is_elf elf = true).
  { destruct Hwf as (i & _ & _ & _ & Hi & _).
    now destruct (elf_getscn_is_elf _ _ _ Hi). }
  assert (Hehdr : elf_ehdr elf1 = elf_ehdr elf).
  { destruct (find_or_add_cases elf off elf1 Hwf Hcall)
      as [[-> _]|(i & strtab & str_data & buf & _ & _ & _ & _ & _ & _ & _ & _
                  & _ & ->)]; reflexivity. }
  rewrite He, He1, Hehdr. cbn [mbind option_bind]. apply Hptr.
Qed.

Lemma find_or_add_keeps_names_witness :
  exists elf1,
    find_or_add_strtab_ref elf_shstrtab_last = Ok (19, elf1)
    /\ section_name elf1 (strtab_scn 11 64 [x00]) = Some (chars ".strtab").
Proof.
  assert (Hcall : exists elf1,
             find_or_add_strtab_ref elf_shstrtab_last = Ok (19, elf1))
    by (eexists; vm_compute; reflexivity).
  destruct Hcall as [elf1 Hcall]. exists elf1. split; [exact Hcall|].
  refine (proj2 (find_or_add_keeps_names elf_shstrtab_last 19 elf1 _ Hcall)
            _ _ _); [|reflexivity].
  eexists 2%nat, _, _, _. repeat split; try reflexivity.
Defined.

(** X6.  The offset [find_or_add_strtab_ref] returns designates the string
    [.reference] in the string table it leaves, whether the name was found
    in use or has just been written. *)
Theorem find_or_add_offset_names_reference (elf : Elf) (off : Z)
    (elf1 : Elf) :
  shstrtab_as_read elf ->
  find_or_add_strtab_ref elf = Ok (off, elf1) ->
  elf_strptr elf1 (e_shstrndx (elf_ehdr elf1)) off
  = Some REFERENCE_SECTION_NAME.
Proof.
  intros Hwf Hcall.
  destruct (find_or_add_cases elf off elf1 Hwf Hcall)
    as [[-> (s & _ & Hs & ->)]
       |(i & strtab & str_data & buf & Hi & Hs & Ht & Hd & Hb & Ho & Hl & _
         & -> & ->)].
  - unfold is_reference, section_name, gelf_getehdr in Hs.
    destruct (is_elf elf); [exact Hs | discriminate].
  - exact (elf_strptr_new_entry elf i strtab str_data buf
             Hi Hs Ht Hd Hb Ho Hl).
Qed.

Lemma find_or_add_offset_names_reference_witness :
  exists off elf1,
    find_or_add_strtab_ref elf_shstrtab_last = Ok (off, elf1)
    /\ elf_strptr elf1 2 off = Some REFERENCE_SECTION_NAME.
Proof.
  assert (Hcall : exists elf1,
             find_or_add_strtab_ref elf_shstrtab_last = Ok (19, elf1))
    by (eexists; vm_compute; reflexivity).
  destruct Hcall as [elf1 Hcall]. exists 19, elf1. split; [exact Hcall|].
  pose proof (find_or_add_offset_names_reference elf_shstrtab_last 19 elf1)
    as H.
  assert (Hehdr : e_shstrndx (elf_ehdr elf1) = 2)
    by (vm_compute in Hcall; now injection Hcall as <-).
  rewrite Hehdr in H. apply H; [|exact Hcall].
  eexists 2%nat, _, _, _. repeat split; try reflexivity.
Defined.

(** * Further properties of the writer *)

Section WriterFrame.
Implicit Types (elf : Elf) (s : Elf_Scn).

(** A successful [add], in full. *)
Lemma add_inv_full elf m d status elf' :
  Cmd.add elf m d = Ok (status, elf') ->
  exists buf bufsize name elf1,
    add_note m d = Ok (buf, bufsize)
    /\ find_or_add_strtab_ref
         (elf_flagelf (elf_flagelf elf ELF_F_LAYOUT) ELF_F_DIRTY)
       = Ok (name, elf1)
    /\ is_elf elf1 = true
    /\ status = EXIT_SUCCESS
    /\ elf' = committed elf1 buf bufsize name.
Proof.
  unfold Cmd.add.
  destruct (add_note m d) as [[buf bufsize]| |] eqn:En; cbn [bind fst snd];
    try discriminate.
  destruct (find_or_add_strtab_ref _) as [[name elf1]| |] eqn:Ef;
    cbn [bind fst snd]; try discriminate.
  pose proof (find_or_add_is_elf _ _ _ Ef) as He1.
  rewrite add_ref_scn_ok by assumption. cbn [bind].
  assert (Hk : elf_kind elf1 = ELF_K_ELF)
    by (unfold is_elf in He1; destruct (elf_kind elf1); congruence).
  unfold gelf_getehdr, gelf_update_ehdr, is_elf, with_scns.
  cbn [elf_kind elf_ehdr]. rewrite Hk.
  cbn [or_fatal bind elf_update e_shstrndx].
  intros [= <- <-]. exists buf, bufsize, name, elf1.
  repeat split; try assumption.
  unfold committed. now rewrite Hk.
Qed.

Lemma add_strtab_ref_inv elf ehdr off elf1 :
  add_strtab_ref elf ehdr = Ok (off, elf1) ->
  exists i s',
    elf_getscn elf (e_shstrndx ehdr) = Some i
    /\ elf1 = with_scns elf (<[i := s']> (elf_scns elf)).
Proof.
  unfold add_strtab_ref.
  destruct (elf_getscn elf (e_shstrndx ehdr)) as [scn|] eqn:Ei;
    cbn [or_fatal bind]; [|discriminate].
  destruct (scn_at elf scn) as [s|]; cbn [or_fatal bind]; [|discriminate].
  destruct (elf_getdata s) as [str_data|]; cbn [or_fatal bind];
    [|discriminate].
  destruct (memcpy _ 0 _ _) as [t1|]; cbn [in_bounds bind]; [|discriminate].
  destruct (memcpy t1 _ _ _) as [t2|]; cbn [in_bounds bind]; [|discriminate].
  destruct (scn_at _ scn) as [s1|]; cbn [or_fatal bind]; [|discriminate].
  unfold gelf_update_shdr.
  destruct (scn_at _ scn) as [s2|]; cbn [or_fatal bind]; [|discriminate].
  intros [= _ <-]. exists scn. eexists. split; [reflexivity|].
  unfold set_data, with_scns. cbn [elf_kind elf_ehdr ehdr_flags elf_scns
                                     elf_flags].
  now rewrite insert_alter_same.
Qed.

(** What a returning call of [find_or_add_strtab_ref] leaves alone. *)
Lemma find_or_add_frame elf off elf1 :
  find_or_add_strtab_ref elf = Ok (off, elf1) ->
  elf_scns elf <> []
  /\ ((elf1 = elf /\ exists s, In s (sections elf) /\ is_reference elf s)
      \/ exists i s',
           elf_getscn elf (e_shstrndx (elf_ehdr elf)) = Some i
           /\ elf1 = with_scns elf (<[i := s']> (elf_scns elf))).
Proof.
  unfold find_or_add_strtab_ref.
  destruct (gelf_getehdr elf) as [ehdr|] eqn:He; cbn [or_fatal bind];
    [|discriminate].
  destruct (gelf_getehdr_is_elf _ _ He) as [Hk ->].
  destruct (find_strtab_ref elf (elf_ehdr elf) (sections elf))
    as [[nm|]| |] eqn:Ef; cbn [bind]; try discriminate.
  - intros [= <- <-].
    destruct (find_strtab_ref_inv _ _ _ _ He Ef) as (s & Hin & Hs & _).
    split.
    + unfold sections in Hin. rewrite Hk in Hin.
      destruct (elf_scns elf); [destruct Hin | discriminate].
    + left. split; [reflexivity|]. now exists s.
  - intros H. apply add_strtab_ref_inv in H as (i & s' & Hi & ->).
    split.
    + destruct (elf_getscn_is_elf _ _ _ Hi) as (_ & _ & _ & Hlt).
      destruct (elf_scns elf); [cbn in Hlt; lia | discriminate].
    + right. now exists i, s'.
Qed.

Lemma table0_nonempty elf : elf_scns elf <> [] -> table0 elf = elf_scns elf.
Proof. unfold table0. destruct (elf_scns elf); [contradiction | trivial]. Qed.
End WriterFrame.

(** X7.  What [add] touches.  A successful [add] returns [EXIT_SUCCESS],
    keeps the kind of the descriptor and [e_shstrndx], and adds one entry at
    the end of the section table.  Every earlier entry other than the
    section-name string table is left as it was; when a section named
    [.reference] exists already, the string table is left as it was too. *)
Theorem add_touches_only_strtab (elf : Elf) (m d : list byte) (status : Z)
    (elf' : Elf) :
  Cmd.add elf m d = Ok (status, elf') ->
  status = EXIT_SUCCESS
  /\ elf_kind elf' = elf_kind elf
  /\ e_shstrndx (elf_ehdr elf') = e_shstrndx (elf_ehdr elf)
  /\ length (elf_scns elf') = S (length (elf_scns elf))
  /\ (forall j s,
        elf_scns elf !! j = Some s ->
        Z.of_nat j <> e_shstrndx (elf_ehdr elf) ->
        elf_scns elf' !! j = Some s)
  /\ ((exists s, In s (sections elf) /\ is_reference elf s) ->
      exists new, elf_scns elf' = elf_scns elf ++ [new]).
Proof.
  intros Hadd.
  destruct (add_inv_full _ _ _ _ _ Hadd)
    as (buf & bufsize & name & elf1 & _ & Hf & He1 & -> & ->).
  set (elf0 := elf_flagelf (elf_flagelf elf ELF_F_LAYOUT) ELF_F_DIRTY) in *.
  destruct (find_or_add_frame _ _ _ Hf) as [Hne Hcases].
  change (elf_scns elf0) with (elf_scns elf) in Hne.
  split; [reflexivity|].
  destruct Hcases as [[-> _]|(i & s' & Hi & ->)].
  - unfold committed. cbn [elf_kind elf_ehdr e_shstrndx elf_scns].
    rewrite (table0_nonempty elf0 Hne).
    change (elf_scns elf0) with (elf_scns elf).
    repeat split.
    + rewrite length_app. cbn [length]. lia.
    + intros j s Hj _. now apply lookup_app_l_Some.
    + intros _. eexists. reflexivity.
  - destruct (elf_getscn_is_elf _ _ _ Hi) as (_ & -> & Hidx & Hlt).
    change (elf_scns elf0) with (elf_scns elf) in *.
    change (elf_ehdr elf0) with (elf_ehdr elf) in *.
    assert (Hne' : <[Z.to_nat (e_shstrndx (elf_ehdr elf)) := s']>
                     (elf_scns elf) <> []).
    { intros E. apply (f_equal length) in E.
      rewrite length_insert in E. cbn in E. lia. }
    unfold committed. cbn [elf_kind elf_ehdr e_shstrndx elf_scns with_scns].
    rewrite (table0_nonempty
               (with_scns elf0
                  (<[Z.to_nat (e_shstrndx (elf_ehdr elf)) := s']>
                     (elf_scns elf))) Hne').
    cbn [elf_scns with_scns].
    repeat split.
    + rewrite length_app, length_insert. cbn [length]. lia.
    + intros j s Hj Hjne. apply lookup_app_l_Some.
      rewrite list_lookup_insert_ne by lia. exact Hj.
    + intros Href.
      assert (Href0 : exists s, In s (sections elf0) /\ is_reference elf0 s)
        by exact Href.
      destruct (find_or_add_found elf0 _ _ Href0 Hf) as [E _].
      apply (f_equal elf_scns) in E. cbn [elf_scns with_scns] in E.
      change (elf_scns elf0) with (elf_scns elf) in E.
      rewrite E. eexists. reflexivity.
Qed.

(** * [add] followed by [list] or by another [add] *)

Section AddThenList.
Implicit Types (elf : Elf) (s : Elf_Scn).

Lemma committed_strptr elf1 buf bufsize name idx offset str :
  elf_scns elf1 <> [] ->
  elf_strptr elf1 idx offset = Some str ->
  elf_strptr (committed elf1 buf bufsize name) idx offset = Some str.
Proof.
  intros Hne. unfold elf_strptr.
  destruct (elf_getscn elf1 idx) as [j|] eqn:Ej; cbn [mbind option_bind];
    [|discriminate].
  destruct (elf_getscn_is_elf _ _ _ Ej) as (He & -> & H0 & Hlt).
  assert (Ej' : elf_getscn (committed elf1 buf bufsize name) idx
                = Some (Z.to_nat idx)).
  { unfold elf_getscn, committed, is_elf in *. cbn [elf_kind elf_scns].
    rewrite (table0_nonempty elf1 Hne), length_app.
    destruct (elf_kind elf1); try discriminate. cbn [andb].
    replace (0 <=? idx) with true by (symmetry; apply Z.leb_le; lia).
    replace (idx <? Z.of_nat (length (elf_scns elf1) + length _))
      with true by (symmetry; apply Z.ltb_lt; lia).
    reflexivity. }
  rewrite Ej'. cbn [mbind option_bind].
  unfold scn_at, committed. cbn [elf_scns].
  rewrite (table0_nonempty elf1 Hne), lookup_app_l by assumption.
  trivial.
Qed.

Lemma section_name_committed elf1 buf bufsize name s str :
  elf_scns elf1 <> [] ->
  section_name elf1 s = Some str ->
  section_name (committed elf1 buf bufsize name) s = Some str.
Proof.
  intros Hne. unfold section_name, gelf_getehdr.
  change (is_elf (committed elf1 buf bufsize name)) with (is_elf elf1).
  destruct (is_elf elf1); cbn [mbind option_bind]; [|discriminate].
  change (e_shstrndx (elf_ehdr (committed elf1 buf bufsize name)))
    with (e_shstrndx (elf_ehdr elf1)).
  now apply committed_strptr.
Qed.

Lemma section_lines_same elf elf' s s' :
  section_name elf' s' = section_name elf s ->
  scn_data s' = scn_data s ->
  section_lines elf' s' = section_lines elf s.
Proof.
  intros Hn Hd. unfold section_lines, is_reference.
  destruct (decide (section_name elf' s' = Some REFERENCE_SECTION_NAME))
    as [H1|H1], (decide (section_name elf s = Some REFERENCE_SECTION_NAME))
    as [H2|H2]; try congruence.
Qed.

Lemma section_lines_other elf s :
  ~ is_reference elf s -> section_lines elf s = [].
Proof.
  intros H. unfold section_lines. now destruct (decide (is_reference elf s)).
Qed.

Lemma concat_map_nil {A B} (f : A -> list B) (l : list A) :
  Forall (fun x => f x = []) l -> concat (map f l) = [].
Proof. induction 1 as [|x l Hx _ IH]; cbn; [trivial | now rewrite Hx, IH]. Qed.

Lemma concat_map_ext {A B} (f g : A -> list B) (l : list A) :
  Forall (fun x => f x = g x) l -> concat (map f l) = concat (map g l).
Proof. induction 1 as [|x l Hx _ IH]; cbn; [trivial | now rewrite Hx, IH]. Qed.

(** The sections a returning [find_or_add_strtab_ref] leaves: each has the
    name offset of a section that was there before, and the data of that
    section unless it is the string table. *)
Lemma find_or_add_sections elf off elf1 :
  shstrtab_as_read elf ->
  find_or_add_strtab_ref elf = Ok (off, elf1) ->
  (elf1 = elf /\ exists s, In s (sections elf) /\ is_reference elf s)
  \/ (Forall (fun s => section_name elf s <> None /\ ~ is_reference elf s)
             (sections elf)
      /\ forall s', In s' (sections elf1) ->
                    exists s, In s (sections elf)
                              /\ sh_name (scn_shdr s') = sh_name (scn_shdr s)).
Proof.
  intros Hwf Hcall.
  destruct (find_or_add_cases elf off elf1 Hwf Hcall)
    as [[-> (s & Hin & Hs & _)]
       |(i & strtab & str_data & buf & Hi & Hs & _ & _ & _ & _ & _ & Hall
         & _ & ->)].
  - left. split; [reflexivity|]. now exists s.
  - right. split; [exact Hall|].
    destruct (elf_getscn_is_elf _ _ _ Hi) as (He & _).
    unfold sections, is_elf, with_scns in *. cbn [elf_kind elf_scns].
    destruct (elf_kind elf); try discriminate.
    intros s' Hin. apply list_elem_of_In, list_elem_of_lookup in Hin
      as [k Hk].
    rewrite lookup_tail in Hk. unfold scn_at in Hs.
    destruct (decide (i = S k)) as [->|Hne].
    + rewrite list_lookup_insert_eq in Hk
        by (eapply lookup_lt_Some; eassumption).
      injection Hk as <-. exists strtab.
      split; [|reflexivity].
      apply list_elem_of_In, list_elem_of_lookup. exists k.
      now rewrite lookup_tail.
    + rewrite list_lookup_insert_ne in Hk by assumption.
      exists s'. split; [|reflexivity].
      apply list_elem_of_In, list_elem_of_lookup. exists k.
      now rewrite lookup_tail.
Qed.

(** The section [add] has created, in the descriptor it commits. *)
Lemma add_new_section elf m d status elf' :
  shstrtab_as_read elf ->
  Cmd.add elf m d = Ok (status, elf') ->
  exists buf bufsize name elf1,
    add_note m d = Ok (buf, bufsize)
    /\ find_or_add_strtab_ref
         (elf_flagelf (elf_flagelf elf ELF_F_LAYOUT) ELF_F_DIRTY)
       = Ok (name, elf1)
    /\ elf_scns elf1 <> []
    /\ elf' = committed elf1 buf bufsize name
    /\ sections elf'
       = sections elf1
           ++ [reference_scn buf bufsize name
                 (add_last_offset (sections elf1))]
    /\ is_reference elf'
         (reference_scn buf bufsize name (add_last_offset (sections elf1))).
Proof.
  intros Hwf Hadd.
  destruct (add_inv_full _ _ _ _ _ Hadd)
    as (buf & bufsize & name & elf1 & Hn & Hf & He1 & -> & ->).
  exists buf, bufsize, name, elf1.
  set (elf0 := elf_flagelf (elf_flagelf elf ELF_F_LAYOUT) ELF_F_DIRTY) in *.
  assert (Hwf0 : shstrtab_as_read elf0) by exact Hwf.
  assert (Hne : elf_scns elf1 <> []).
  { destruct (find_or_add_frame _ _ _ Hf) as [Hne0 [[-> _]|(i & s' & _ & ->)]];
      [exact Hne0|].
    cbn [elf_scns with_scns]. intros E. apply (f_equal length) in E.
    rewrite length_insert in E. destruct (elf_scns elf0); [now apply Hne0|].
    discriminate E. }
  split; [exact Hn|]. split; [exact Hf|]. split; [exact Hne|].
  split; [reflexivity|]. split.
  - exact (sections_table0 elf1 _ He1).
  - unfold is_reference, section_name, gelf_getehdr.
    change (is_elf (committed elf1 buf bufsize name)) with (is_elf elf1).
    rewrite He1. cbn [mbind option_bind].
    change (e_shstrndx (elf_ehdr (committed elf1 buf bufsize name)))
      with (e_shstrndx (elf_ehdr elf1)).
    cbn [scn_shdr reference_scn sh_name].
    assert (Hptr : elf_strptr elf1 (e_shstrndx (elf_ehdr elf1)) name
                   = Some REFERENCE_SECTION_NAME).
    { destruct (find_or_add_cases elf0 name elf1 Hwf0 Hf)
        as [[-> (s & _ & Hs & ->)]
           |(i & strtab & str_data & b & Hi & Hs & Ht & Hd & Hb & Ho & Hl
             & _ & -> & ->)].
      - unfold is_reference, section_name, gelf_getehdr in Hs.
        destruct (is_elf elf0); [exact Hs | discriminate].
      - exact (elf_strptr_new_entry elf0 i strtab str_data b
                 Hi Hs Ht Hd Hb Ho Hl). }
    exact (committed_strptr elf1 buf bufsize name _ _ _ Hne Hptr).
Qed.
End AddThenList.

Section AddThenListProof.
Implicit Types (elf : Elf) (s : Elf_Scn).

Lemma section_name_kept elf off elf1 s str :
  shstrtab_as_read elf ->
  find_or_add_strtab_ref elf = Ok (off, elf1) ->
  section_name elf s = Some str -> section_name elf1 s = Some str.
Proof.
  intros Hwf Hcall.
  destruct (find_or_add_cases elf off elf1 Hwf Hcall)
    as [[-> _]|(i & strtab & str_data & buf & Hi & Hs & Ht & Hd & Hb & Ho
                & Hl & _ & _ & ->)]; [trivial|].
  unfold section_name, gelf_getehdr.
  change (is_elf (with_scns elf _)) with (is_elf elf).
  destruct (is_elf elf); cbn [mbind option_bind]; [|discriminate].
  change (elf_ehdr (with_scns elf _)) with (elf_ehdr elf).
  now apply elf_strptr_extended with (buf := buf).
Qed.

Lemma list_readable elf out :
  Cmd.list elf = Ok (EXIT_SUCCESS, out) ->
  Forall (fun s => section_name elf s <> None) (sections elf)
  /\ (forall s, In s (sections elf) -> is_reference elf s ->
                Forall decodable (scn_data s))
  /\ out = ListReferences elf.
Proof.
  unfold Cmd.list. intros H.
  pose proof (list_sections_outcome elf (sections elf) []) as Ho.
  destruct (list_sections elf (sections elf) []) as [o| |] eqn:E;
    cbn [bind] in H; try discriminate.
  destruct Ho as [Hall Hdec]. split; [exact Hall|]. split; [exact Hdec|].
  rewrite (list_sections_ok elf _ [] Hall Hdec) in E.
  injection E as <-. now injection H as <-.
Qed.

(** [list] on the descriptor [add] commits: what it printed before,
    followed by the line read back from the new record. *)
Lemma list_after_add elf m d status elf' out buf bufsize name desc :
  shstrtab_as_read elf ->
  Cmd.add elf m d = Ok (status, elf') ->
  Cmd.list elf = Ok (EXIT_SUCCESS, out) ->
  add_note m d = Ok (buf, bufsize) ->
  Decode buf = Ok (name, desc) ->
  Cmd.list elf'
  = Ok (EXIT_SUCCESS, out ++ desc ++ chars " (" ++ name ++ chars ")" ++ [x0a]).
Proof.
  intros Hwf Hadd Hlist Hnote Hdec.
  destruct (list_readable elf out Hlist) as (Hall & Hdecs & ->).
  destruct (add_new_section elf m d status elf' Hwf Hadd)
    as (buf' & bufsize' & nm & elf1 & Hn & Hf & Hne & -> & Hsec & Hnew).
  rewrite Hnote in Hn. injection Hn as <- <-.
  set (elf0 := elf_flagelf (elf_flagelf elf ELF_F_LAYOUT) ELF_F_DIRTY) in *.
  assert (Hwf0 : shstrtab_as_read elf0) by exact Hwf.
  set (new := reference_scn buf bufsize nm (add_last_offset (sections elf1)))
    in *.
  set (elf' := committed elf1 buf bufsize nm) in *.
  assert (Hline : section_lines elf' new
                  = desc ++ chars " (" ++ name ++ chars ")" ++ [x0a]).
  { unfold section_lines.
    destruct (decide (is_reference elf' new)); [|contradiction].
    cbn [new reference_scn scn_data map concat block_lines d_buf].
    unfold record_line. rewrite Hdec. now rewrite app_nil_r. }
  assert (Hnewdec : Forall decodable (scn_data new)).
  { repeat constructor. intros n [= <-]. eauto. }
  assert (Hold : Forall (fun s => section_name elf' s <> None) (sections elf1)
                 /\ (forall s, In s (sections elf1) -> is_reference elf' s ->
                               Forall decodable (scn_data s))
                 /\ concat (map (section_lines elf') (sections elf1))
                    = ListReferences elf).
  { destruct (find_or_add_sections elf0 nm elf1 Hwf0 Hf)
      as [[E _]|[Hnone Hnames]].
    - assert (Hsame : forall s, In s (sections elf) ->
                                section_name elf' s = section_name elf s).
      { intros s Hs. rewrite Forall_forall in Hall.
        apply list_elem_of_In in Hs. specialize (Hall s Hs).
        destruct (section_name elf s) as [str|] eqn:Es; [|contradiction].
        apply section_name_committed; [exact Hne|].
        rewrite E. exact Es. }
      rewrite E in *. change (sections elf0) with (sections elf) in *.
      split; [|split].
      + rewrite Forall_forall. intros s Hs. apply list_elem_of_In in Hs.
        rewrite (Hsame s Hs). rewrite Forall_forall in Hall.
        apply Hall. now apply list_elem_of_In.
      + intros s Hs Href. apply Hdecs; [exact Hs|].
        unfold is_reference in *. now rewrite <- (Hsame s Hs).
      + apply concat_map_ext. rewrite Forall_forall. intros s Hs.
        apply list_elem_of_In in Hs.
        apply section_lines_same; [now apply Hsame | reflexivity].
    - change (sections elf0) with (sections elf) in *.
      assert (Hother : forall s', In s' (sections elf1) ->
                 section_name elf' s' <> None /\ ~ is_reference elf' s').
      { intros s' Hs'. destruct (Hnames s' Hs') as (s & Hs & Hsh).
        rewrite Forall_forall in Hnone. apply list_elem_of_In in Hs.
        destruct (Hnone s Hs) as [Hread Hnoref].
        change (section_name elf0 s) with (section_name elf s) in *.
        change (is_reference elf0 s) with (is_reference elf s) in *.
        destruct (section_name elf s) as [str|] eqn:Es; [|contradiction].
        assert (Es1 : section_name elf1 s = Some str)
          by (apply (section_name_kept elf0 nm elf1 s str Hwf0 Hf);
              exact Es).
        assert (Es' : section_name elf' s' = Some str).
        { replace (section_name elf' s') with (section_name elf' s)
            by (unfold section_name; now rewrite Hsh).
          now apply section_name_committed. }
        unfold is_reference in *. rewrite Es'. split; congruence. }
      split; [|split].
      + rewrite Forall_forall. intros s' Hs'. apply list_elem_of_In in Hs'.
        now destruct (Hother s' Hs').
      + intros s' Hs' Href. now destruct (Hother s' Hs').
      + unfold ListReferences.
        rewrite !concat_map_nil; [reflexivity| |].
        * rewrite Forall_forall. intros s Hs.
          rewrite Forall_forall in Hnone.
          apply section_lines_other. now destruct (Hnone s Hs).
        * rewrite Forall_forall. intros s' Hs'. apply list_elem_of_In in Hs'.
          apply section_lines_other. now destruct (Hother s' Hs'). }
  destruct Hold as (Hall' & Hdecs' & Hlines).
  unfold Cmd.list. rewrite Hsec.
  rewrite list_sections_ok.
  - cbn [bind app]. rewrite map_app, concat_app, Hlines.
    cbn [map concat]. now rewrite Hline, app_nil_r.
  - apply Forall_app. split; [exact Hall'|].
    repeat constructor. unfold is_reference in Hnew. now rewrite Hnew.
  - intros s Hs Href. apply in_app_or in Hs as [Hs|[<-|[]]].
    + now apply Hdecs'.
    + exact Hnewdec.
Qed.
End AddThenListProof.

(** X8.  [add] then [list].  Let [add] succeed on a container whose string
    table is as read from a file, for two strings without NUL whose lengths
    are not multiples of 4.  Then [list] on the descriptor [add] commits
    prints what [list] printed before, followed by the one line
    [data (mediaType)]. *)
Theorem add_then_list (elf : Elf) (m d : list byte) (status : Z)
    (elf' : Elf) (out : stdout) :
  shstrtab_as_read elf ->
  no_nul m -> no_nul d ->
  Z.of_nat (length m) mod 4 <> 0 ->
  Z.of_nat (length d) mod 4 <> 0 ->
  Cmd.add elf m d = Ok (status, elf') ->
  Cmd.list elf = Ok (EXIT_SUCCESS, out) ->
  Cmd.list elf'
  = Ok (EXIT_SUCCESS, out ++ d ++ chars " (" ++ m ++ chars ")" ++ [x0a]).
Proof.
  intros Hwf Hm Hd Pm Pd Hadd Hlist.
  destruct (add_inv_full _ _ _ _ _ Hadd)
    as (buf & bufsize & name & elf1 & Hn & _).
  destruct (add_note_returns m d _ Hn) as [Bm Bd].
  rewrite (strlen_no_nul m Hm) in Bm. rewrite (strlen_no_nul d Hd) in Bd.
  pose proof (round_trip_padded m d Hm Hd Bm Bd Pm Pd) as Hrt.
  unfold Encode in Hrt. rewrite Hn in Hrt. cbn [bind fst] in Hrt.
  exact (list_after_add elf m d status elf' out buf bufsize m d
           Hwf Hadd Hlist Hn Hrt).
Qed.

Lemma add_then_list_witness :
  exists elf',
    Cmd.add elf_one_reference (chars "text/plain") (chars "world")
    = Ok (EXIT_SUCCESS, elf')
    /\ Cmd.list elf'
       = Ok (EXIT_SUCCESS,
             (chars "hello (text/plain)" ++ [x0a])
               ++ chars "world" ++ chars " (" ++ chars "text/plain"
               ++ chars ")" ++ [x0a]).
Proof.
  assert (Hadd : exists elf',
             Cmd.add elf_one_reference (chars "text/plain") (chars "world")
             = Ok (EXIT_SUCCESS, elf'))
    by (eexists; vm_compute; reflexivity).
  destruct Hadd as [elf' Hadd]. exists elf'. split; [exact Hadd|].
  apply (add_then_list elf_one_reference (chars "text/plain") (chars "world")
           EXIT_SUCCESS elf').
  - eexists 2%nat, _, _, _. repeat split; try reflexivity.
  - repeat constructor; discriminate.
  - repeat constructor; discriminate.
  - vm_compute. discriminate.
  - vm_compute. discriminate.
  - exact Hadd.
  - vm_compute. reflexivity.
Defined.

(** X9.  A second [add].  After a successful [add] on a container whose
    string table is as read from a file, another successful [add] leaves
    every section of the first result as it is, the string table included,
    and appends its own section; when the sections of the first result lie
    in the 64-bit offset space, the second new section starts where the
    first one ends, at the offset the first [add] left in [e_shoff]. *)
Theorem second_add_appends_behind (elf : Elf) (m d m2 d2 : list byte)
    (status status2 : Z) (elf' elf'' : Elf) :
  shstrtab_as_read elf ->
  Cmd.add elf m d = Ok (status, elf') ->
  Cmd.add elf' m2 d2 = Ok (status2, elf'') ->
  (forall s, In s (sections elf') -> byte_bearing s -> in_offset_space s) ->
  exists others new1 new2,
    elf_scns elf' = others ++ [new1]
    /\ elf_scns elf'' = others ++ [new1; new2]
    /\ sh_offset (scn_shdr new2)
       = sh_offset (scn_shdr new1) + sh_size (scn_shdr new1)
    /\ sh_offset (scn_shdr new2) = e_shoff (elf_ehdr elf').
Proof.
  intros Hwf Hadd1 Hadd2 Hspace.
  destruct (add_new_section elf m d status elf' Hwf Hadd1)
    as (buf & bufsize & name & elf1 & _ & _ & Hne & E' & Hsec & Hnew).
  set (lo1 := add_last_offset (sections elf1)) in *.
  set (new1 := reference_scn buf bufsize name lo1) in *.
  destruct (add_inv_full _ _ _ _ _ Hadd2)
    as (buf2 & bufsize2 & name2 & elf2 & _ & Hf2 & _ & _ & E'').
  set (elf0' := elf_flagelf (elf_flagelf elf' ELF_F_LAYOUT) ELF_F_DIRTY) in *.
  assert (Href : exists s, In s (sections elf0') /\ is_reference elf0' s).
  { exists new1. split; [|exact Hnew].
    change (sections elf0') with (sections elf'). rewrite Hsec.
    apply in_or_app. right. now left. }
  destruct (find_or_add_found elf0' name2 elf2 Href Hf2) as [-> _].
  assert (Hscns' : elf_scns elf' = elf_scns elf1 ++ [new1]).
  { rewrite E'. unfold committed. cbn [elf_scns].
    now rewrite (table0_nonempty elf1 Hne). }
  assert (Hne' : elf_scns elf0' <> []).
  { change (elf_scns elf0') with (elf_scns elf'). rewrite Hscns'.
    destruct (elf_scns elf1); discriminate. }
  assert (Hin1 : in_offset_space new1).
  { apply Hspace; [|discriminate]. rewrite Hsec.
    apply in_or_app. right. now left. }
  assert (Hlo2 : add_last_offset (sections elf0') = lo1 + bufsize).
  { change (sections elf0') with (sections elf'). rewrite Hsec.
    unfold add_last_offset. rewrite fold_left_app. cbn [fold_left].
    fold (add_last_offset (sections elf1)). fold lo1.
    rewrite last_offset_step_spec.
    rewrite (scn_end_exact new1 Hin1).
    destruct Hin1 as (H0 & H1 & _). cbn in H0, H1 |- *. lia. }
  exists (elf_scns elf1), new1,
    (reference_scn buf2 bufsize2 name2 (add_last_offset (sections elf0'))).
  split; [exact Hscns'|]. split; [|split].
  - rewrite E''. unfold committed. cbn [elf_scns].
    rewrite (table0_nonempty elf0' Hne').
    change (elf_scns elf0') with (elf_scns elf'). rewrite Hscns'.
    now rewrite <- app_assoc.
  - cbn [reference_scn scn_shdr sh_offset sh_size new1]. exact Hlo2.
  - cbn [reference_scn scn_shdr sh_offset]. rewrite Hlo2, E'.
    unfold committed. cbn [elf_ehdr e_shoff]. fold lo1.
    destruct Hin1 as (H0 & H1 & H2). cbn in H0, H1, H2.
    unfold word64. symmetry. apply Z.mod_small. lia.
Qed.

Lemma second_add_appends_behind_witness :
  exists elf'' others new1 new2,
    Cmd.add elf_one_reference (chars "text/plain") (chars "world")
    = Ok (EXIT_SUCCESS, elf'')
    /\ elf_scns elf_one_reference = others ++ [new1]
    /\ elf_scns elf'' = others ++ [new1; new2]
    /\ sh_offset (scn_shdr new2) = e_shoff (elf_ehdr elf_one_reference).
Proof.
  assert (Hadd : exists elf'',
             Cmd.add elf_one_reference (chars "text/plain") (chars "world")
             = Ok (EXIT_SUCCESS, elf''))
    by (eexists; vm_compute; reflexivity).
  destruct Hadd as [elf'' Hadd]. exists elf''.
  destruct (second_add_appends_behind elf_shstrtab_last
              (chars "text/plain") (chars "hello")
              (chars "text/plain") (chars "world")
              EXIT_SUCCESS EXIT_SUCCESS elf_one_reference elf'')
    as (others & new1 & new2 & H1 & H2 & _ & H4).
  - eexists 2%nat, _, _, _. repeat split; try reflexivity.
  - vm_compute. reflexivity.
  - exact Hadd.
  - intros s [<-|[<-|[<-|[]]]] _; vm_compute; repeat split; discriminate.
  - exists others, new1, new2. repeat split; assumption.
Defined.

Lemma add_touches_only_strtab_witness :
  exists elf',
    Cmd.add elf_shstrtab_first (chars "text/plain") (chars "hello")
    = Ok (EXIT_SUCCESS, elf')
    /\ length (elf_scns elf') = 4%nat
    /\ elf_scns elf' !! 2%nat = Some (strtab_scn 11 83 [x00]).
Proof.
  assert (Hadd : exists elf',
             Cmd.add elf_shstrtab_first (chars "text/plain") (chars "hello")
             = Ok (EXIT_SUCCESS, elf'))
    by (eexists; vm_compute; reflexivity).
  destruct Hadd as [elf' Hadd]. exists elf'. split; [exact Hadd|].
  destruct (add_touches_only_strtab elf_shstrtab_first (chars "text/plain")
              (chars "hello") EXIT_SUCCESS elf' Hadd)
    as (_ & _ & _ & Hlen & Hkeep & _).
  split; [exact Hlen|]. apply Hkeep; [reflexivity | discriminate].
Defined.

(** * The command line *)

Section CommandLine.

Lemma strcmp_chars a (s : string) :
  no_nul a -> no_nul (chars s) ->
  (strcmp a (chars s) =? 0) = bool_decide (a = chars s).
Proof.
  intros Ha Hs. pose proof (strcmp_eq a (chars s) Ha Hs) as H.
  destruct (Z.eqb_spec (strcmp a (chars s)) 0) as [E|E];
    [rewrite bool_decide_eq_true_2 | rewrite bool_decide_eq_false_2];
    tauto.
Qed.

Lemma no_nul_list : no_nul (chars "list").
Proof. repeat constructor; discriminate. Qed.

Lemma no_nul_add : no_nul (chars "add").
Proof. repeat constructor; discriminate. Qed.

Lemma main_list progname file rest w :
  main (progname :: chars "list" :: file :: rest) w = list_file file w.
Proof.
  unfold main. cbn [length lookup list_lookup].
  destruct (Z.ltb_spec (Z.of_nat (S (S (S (length rest))))) 2); [lia|].
  destruct (Z.ltb_spec (Z.of_nat (S (S (S (length rest))))) 3); [lia|].
  reflexivity.
Qed.

Lemma main_add progname file mediatype data rest w :
  main (progname :: chars "add" :: file :: mediatype :: data :: rest) w
  = add_file file mediatype data w.
Proof.
  unfold main. cbn [length lookup list_lookup].
  destruct (Z.ltb_spec (Z.of_nat (S (S (S (S (S (length rest))))))) 2); [lia|].
  destruct (Z.ltb_spec (Z.of_nat (S (S (S (S (S (length rest))))))) 5); [lia|].
  reflexivity.
Qed.

Lemma elf_open_cases file cmd w :
  match elf_open file cmd w with
  | Ok elf =>
      exists f, w_files w !! file = Some f /\ f_readable f = true
                /\ (cmd = ELF_C_RDWR -> f_writable f = true)
                /\ f_elf f = Some elf
  | Fatal msg =>
      (msg = "opening file " +:+ String.string_of_list_byte file
       /\ (w_files w !! file = None
           \/ exists f, w_files w !! file = Some f
                        /\ (f_readable f = false
                            \/ cmd = ELF_C_RDWR /\ f_writable f = false)))
      \/ (msg = "parsing file " +:+ String.string_of_list_byte file
          /\ exists f, w_files w !! file = Some f /\ f_readable f = true
                       /\ (cmd = ELF_C_RDWR -> f_writable f = true)
                       /\ f_elf f = None)
  | Undefined => False
  end.
Proof.
  unfold elf_open, open, elf_begin.
  destruct (w_files w !! file) as [f|]; cbn [mbind option_bind].
  2:{ cbn. left. split; [reflexivity | now left]. }
  destruct (f_readable f) eqn:Er; cbn [andb].
  2:{ cbn. left. split; [reflexivity|]. right. exists f. auto. }
  destruct cmd.
  - change (Z.lor 0 O_RDONLY =? O_RDONLY) with true.
    cbn [orb or_fatal bind].
    destruct (f_elf f) as [elf|] eqn:Ee; cbn [or_fatal].
    + exists f. repeat split; auto. discriminate.
    + right. split; [reflexivity|]. exists f. repeat split; auto.
      discriminate.
  - change (Z.lor 0 O_RDWR =? O_RDONLY) with false. cbn [orb].
    destruct (f_writable f) eqn:Ew; cbn [or_fatal bind].
    + destruct (f_elf f) as [elf|] eqn:Ee; cbn [or_fatal].
      * exists f. repeat split; auto.
      * right. split; [reflexivity|]. exists f. repeat split; auto.
    + left. split; [reflexivity|]. right. exists f. auto.
Qed.



End CommandLine.

(** X10.  Usage.  An invocation whose arguments name no command with the
    arguments it needs -- anything but [list FILE ...] and
    [add FILE MEDIATYPE DATA ...] -- writes the usage text for [argv[0]] to
    standard error and returns [EXIT_FAILURE]; no file is opened and nothing
    goes to standard output. *)
Theorem usage_unless_command (argv : list (list byte)) progname w :
  argv !! 0%nat = Some progname ->
  Forall no_nul argv ->
  (forall file rest, argv <> progname :: chars "list" :: file :: rest) ->
  (forall file mediatype data rest,
      argv <> progname :: chars "add" :: file :: mediatype :: data :: rest) ->
  main argv w
  = Ok (EXIT_FAILURE,
        {| w_files := w_files w; w_heap := w_heap w;
           w_stdout := w_stdout w;
           w_stderr := w_stderr w ++ usage_text progname;
           w_written := w_written w |}).
Proof.
  intros H0 Hall Hlist Hadd.
  destruct argv as [|p argv]; [discriminate|].
  injection H0 as ->.
  destruct argv as [|command argv]; [reflexivity|].
  unfold main. cbn [length lookup list_lookup].
  destruct (Z.ltb_spec (Z.of_nat (S (S (length argv)))) 2); [lia|].
  assert (Hc : no_nul command).
  { apply Forall_cons in Hall as [_ Hall].
    now apply Forall_cons in Hall as [Hc _]. }
  rewrite (strcmp_chars command "list" Hc no_nul_list).
  rewrite (strcmp_chars command "add" Hc no_nul_add).
  destruct (decide (command = chars "list")) as [->|Hnl].
  - rewrite bool_decide_eq_true_2 by reflexivity.
    destruct argv as [|file rest]; [reflexivity|].
    now destruct (Hlist file rest).
  - rewrite bool_decide_eq_false_2 by assumption.
    destruct (decide (command = chars "add")) as [->|Hna].
    + rewrite bool_decide_eq_true_2 by reflexivity.
      destruct argv as [|file [|mediatype [|data rest]]]; try reflexivity.
      now destruct (Hadd file mediatype data rest).
    + now rewrite bool_decide_eq_false_2 by assumption.
Qed.

Lemma usage_unless_command_witness :
  main [chars "reftool"; chars "remove"; chars "a.out"]
       (one_file (chars "a.out") (mkFile true true (Some elf_one_reference)))
  = Ok (EXIT_FAILURE,
        {| w_files := {[ chars "a.out"
                         := mkFile true true (Some elf_one_reference) ]};
           w_heap := fun _ => true;
           w_stdout := [];
           w_stderr := usage_text (chars "reftool");
           w_written := [] |}).
Proof.
  apply (usage_unless_command
           [chars "reftool"; chars "remove"; chars "a.out"] (chars "reftool")
           (one_file (chars "a.out")
                     (mkFile true true (Some elf_one_reference)))).
  - reflexivity.
  - repeat constructor; discriminate.
  - intros file rest. discriminate.
  - intros file mediatype data rest. discriminate.
Defined.

(** X11.  The [list] command.  Arguments after the file name are ignored.
    When the command returns, the file was readable and parsed, the status
    is [EXIT_SUCCESS], standard output has grown by exactly the lines of the
    file's references, and no file and nothing on standard error has
    changed: nothing was written to any file. *)
Theorem list_command progname file rest w status w' :
  main (progname :: chars "list" :: file :: rest) w = Ok (status, w') ->
  exists f elf,
    w_files w !! file = Some f
    /\ f_readable f = true
    /\ f_elf f = Some elf
    /\ status = EXIT_SUCCESS
    /\ w_stdout w' = w_stdout w ++ ListReferences elf
    /\ w_stderr w' = w_stderr w
    /\ w_files w' = w_files w
    /\ w_written w' = w_written w.
Proof.
  rewrite main_list. unfold list_file. intros H.
  pose proof (elf_open_cases file ELF_C_READ w) as Ho.
  destruct (elf_open file ELF_C_READ w) as [elf| |]; cbn [bind] in H;
    try discriminate.
  destruct Ho as (f & Hf & Hr & _ & He).
  destruct (Cmd.list elf) as [[st out]| |] eqn:El; cbn [bind fst snd] in H;
    try discriminate.
  injection H as <- <-.
  assert (Hst : st = EXIT_SUCCESS).
  { unfold Cmd.list in El.
    destruct (list_sections elf (sections elf) []); cbn [bind] in El;
      congruence. }
  subst st. apply list_readable in El as (_ & _ & ->).
  exists f, elf. repeat split; assumption.
Qed.

Lemma list_command_witness :
  exists f elf,
    ({[ chars "a.out" := mkFile true false (Some elf_one_reference) ]}
       : gmap (list byte) File) !! chars "a.out" = Some f
    /\ f_readable f = true
    /\ f_elf f = Some elf
    /\ EXIT_SUCCESS = EXIT_SUCCESS
    /\ chars "hello (text/plain)" ++ [x0a] = [] ++ ListReferences elf
    /\ ([] : list byte) = []
    /\ ({[ chars "a.out" := mkFile true false (Some elf_one_reference) ]}
          : gmap (list byte) File)
       = {[ chars "a.out" := mkFile true false (Some elf_one_reference) ]}
    /\ ([] : list (list byte * Elf)) = [].
Proof.
  refine (list_command (chars "reftool") (chars "a.out") [chars "-v"]
            (one_file (chars "a.out")
                      (mkFile true false (Some elf_one_reference)))
            EXIT_SUCCESS
            {| w_files := {[ chars "a.out"
                             := mkFile true false (Some elf_one_reference) ]};
               w_heap := fun _ => true;
               w_stdout := chars "hello (text/plain)" ++ [x0a];
               w_stderr := [];
               w_written := [] |} _).
  rewrite main_list. unfold list_file, elf_open, open, one_file.
  cbn [w_files w_stdout w_stderr]. rewrite lookup_singleton_eq.
  reflexivity.
Defined.



(** X13.  [list] on a file that cannot be read.  [list] opens the file for
    reading: when the file is missing or unreadable, the command stops with
    the message [opening file FILE]. *)
Theorem list_open_failure progname file rest w :
  (forall f, w_files w !! file = Some f -> f_readable f = false) ->
  main (progname :: chars "list" :: file :: rest) w
  = Fatal ("opening file " +:+ String.string_of_list_byte file).
Proof.
  intros Hro. rewrite main_list. unfold list_file.
  pose proof (elf_open_cases file ELF_C_READ w) as Ho.
  destruct (elf_open file ELF_C_READ w) as [elf|msg|]; cbn [bind].
  - destruct Ho as (f & Hf & Hr & _).
    specialize (Hro f Hf). congruence.
  - destruct Ho as [[-> _]|(_ & f & Hf & Hr & _)]; [reflexivity|].
    specialize (Hro f Hf). congruence.
  - destruct Ho.
Qed.

Lemma list_open_failure_witness :
  main [chars "reftool"; chars "list"; chars "a.out"]
       (one_file (chars "a.out") (mkFile false true (Some elf_one_reference)))
  = Fatal "opening file a.out".
Proof.
  apply (list_open_failure (chars "reftool") (chars "a.out") []
           (one_file (chars "a.out")
                     (mkFile false true (Some elf_one_reference)))).
  intros f Hf. unfold one_file in Hf. cbn [w_files] in Hf.
  rewrite lookup_singleton_eq in Hf. now injection Hf as <-.
Defined.

(** X14.  [add] on a file that cannot be opened for reading and writing.
    [add] allocates and builds its record first, then opens the file for
    reading and writing.  With strings of a length for which a record is
    built, a file that is missing or lacks one of the two rights makes the
    command stop: with the message "malloc" when the allocation of the
    record fails, and with [opening file FILE] otherwise. *)
Theorem add_open_failure progname file mediatype data rest w :
  Z.of_nat (strlen mediatype) <= 2 ^ 32 - 4 ->
  Z.of_nat (strlen data) <= 2 ^ 32 - 4 ->
  (forall f, w_files w !! file = Some f ->
             f_readable f && f_writable f = false) ->
  main (progname :: chars "add" :: file :: mediatype :: data :: rest) w
  = Fatal (if w_heap w 0%nat
           then "opening file " +:+ String.string_of_list_byte file
           else "malloc").
Proof.
  intros Hm Hd Hrw. rewrite main_add.
  unfold add_file, add_note_alloc, calloc_or_null.
  destruct (w_heap w 0%nat); cbn [or_fatal bind]; [|reflexivity].
  rewrite add_note_layout by assumption. cbn [bind].
  pose proof (elf_open_cases file ELF_C_RDWR w) as Ho.
  destruct (elf_open file ELF_C_RDWR w) as [elf|msg|]; cbn [bind].
  - destruct Ho as (f & Hf & Hr & Hw & _).
    specialize (Hrw f Hf). rewrite Hr, Hw in Hrw by reflexivity.
    discriminate.
  - destruct Ho as [[-> _]|(_ & f & Hf & Hr & Hw & _)]; [reflexivity|].
    specialize (Hrw f Hf). rewrite Hr, Hw in Hrw by reflexivity.
    discriminate.
  - destruct Ho.
Qed.

Lemma add_open_failure_witness :
  main [chars "reftool"; chars "add"; chars "a.out"; chars "text/plain";
        chars "hello"]
       (one_file (chars "a.out") (mkFile true false (Some elf_shstrtab_last)))
  = Fatal "opening file a.out".
Proof.
  refine (add_open_failure (chars "reftool") (chars "a.out")
            (chars "text/plain") (chars "hello") []
            (one_file (chars "a.out")
                      (mkFile true false (Some elf_shstrtab_last))) _ _ _).
  - vm_compute. discriminate.
  - vm_compute. discriminate.
  - intros f Hf. unfold one_file in Hf. cbn [w_files] in Hf.
    rewrite lookup_singleton_eq in Hf. now injection Hf as <-.
Defined.
